(** * JSON structural operations of [json-formatter/tools/json_tools.py]

    A shallow embedding of the deep merge ([merge_json], [_deep_merge]), the
    path extractor ([extract_json_path]) and the structural differ
    ([compare_json], [_compare_values]), together with the properties the
    specification states about them. *)

From Stdlib Require Import List String Ascii ZArith Bool Lia.
From Stdlib Require Import Decimal DecimalString DecimalNat SpecFloat.
Import ListNotations.
Open Scope string_scope.
Open Scope list_scope.

(** ** Parsed documents

    [json.loads] yields [None], [bool], [int], [float], [str], [list] and
    [dict] objects.  A [dict] keeps its items in insertion order and its keys
    are unique; it is represented by the list of its items, and the
    uniqueness of keys is the representation invariant [wf_value].  An
    [int] is unbounded; a [float] is an IEEE-754 binary64 number, here a
    [spec_float] (the parser also accepts the literals [NaN], [Infinity] and
    [-Infinity]). *)

Unset Elimination Schemes.
Inductive value : Type :=
| VNone
| VBool (b : bool)
| VInt (n : Z)
| VFloat (f : spec_float)
| VStr (s : string)
| VList (elems : list value)
| VDict (items : list (string * value)).
Set Elimination Schemes.

Definition dict := list (string * value).

Section ValueInduction.
Variable P : value -> Prop.
Hypothesis HNone : P VNone.
Hypothesis HBool : forall b, P (VBool b).
Hypothesis HInt : forall n, P (VInt n).
Hypothesis HFloat : forall f, P (VFloat f).
Hypothesis HStr : forall s, P (VStr s).
Hypothesis HList : forall elems, Forall P elems -> P (VList elems).
Hypothesis HDict :
  forall items, Forall (fun kv => P (snd kv)) items -> P (VDict items).

Fixpoint value_ind (v : value) : P v :=
  match v with
  | VNone => HNone
  | VBool b => HBool b
  | VInt n => HInt n
  | VFloat f => HFloat f
  | VStr s => HStr s
  | VList elems =>
      HList elems
        ((fix all (l : list value) : Forall P l :=
            match l with
            | [] => Forall_nil P
            | x :: l' => Forall_cons x (value_ind x) (all l')
            end) elems)
  | VDict items =>
      HDict items
        ((fix all (l : dict) : Forall (fun kv => P (snd kv)) l :=
            match l with
            | [] => Forall_nil _
            | kv :: l' => Forall_cons kv (value_ind (snd kv)) (all l')
            end) items)
  end.
End ValueInduction.

(** The runtime type of a document, [type(v)], and its [__name__]. *)
Inductive pytype := NoneType | TBool | TInt | TFloat | TStr | TList | TDict.

Definition type_of (v : value) : pytype :=
  match v with
  | VNone => NoneType
  | VBool _ => TBool
  | VInt _ => TInt
  | VFloat _ => TFloat
  | VStr _ => TStr
  | VList _ => TList
  | VDict _ => TDict
  end.

Definition type_name (t : pytype) : string :=
  match t with
  | NoneType => "NoneType"
  | TBool => "bool"
  | TInt => "int"
  | TFloat => "float"
  | TStr => "str"
  | TList => "list"
  | TDict => "dict"
  end.

Definition pytype_eqb (t1 t2 : pytype) : bool :=
  match t1, t2 with
  | NoneType, NoneType | TBool, TBool | TInt, TInt | TFloat, TFloat
  | TStr, TStr | TList, TList | TDict, TDict => true
  | _, _ => false
  end.

(** The six JSON kinds of the specification's value model. *)
Inductive kind := Null | Bool | Number | String_ | Array | Object.

Definition kind_of (v : value) : kind :=
  match v with
  | VNone => Null
  | VBool _ => Bool
  | VInt _ | VFloat _ => Number
  | VStr _ => String_
  | VList _ => Array
  | VDict _ => Object
  end.

(** ** Dictionaries *)

Fixpoint dict_get (key : string) (d : dict) : option value :=
  match d with
  | [] => None
  | (k, v) :: rest => if String.eqb k key then Some v else dict_get key rest
  end.

(** [d[key] = v]: an existing key keeps its position, a new key goes last. *)
Fixpoint dict_set (key : string) (v : value) (d : dict) : dict :=
  match d with
  | [] => [(key, v)]
  | (k, w) :: rest =>
      if String.eqb k key then (k, v) :: rest else (k, w) :: dict_set key v rest
  end.

Definition keys (d : dict) : list string := map fst d.

Fixpoint str_mem (s : string) (l : list string) : bool :=
  match l with
  | [] => false
  | x :: rest => String.eqb x s || str_mem s rest
  end.

Fixpoint unique (l : list string) : bool :=
  match l with
  | [] => true
  | x :: rest => negb (str_mem x rest) && unique rest
  end.

(** Representation invariant: every dictionary in the document has unique
    keys. *)
Fixpoint wf_value (v : value) : bool :=
  match v with
  | VList elems => forallb wf_value elems
  | VDict items =>
      unique (map fst items) && forallb (fun kv => wf_value (snd kv)) items
  | _ => true
  end.

Definition is_nan (f : spec_float) : bool :=
  match f with S754_nan => true | _ => false end.

(** No [float('nan')] anywhere in the document. *)
Fixpoint nan_free (v : value) : bool :=
  match v with
  | VFloat f => negb (is_nan f)
  | VList elems => forallb nan_free elems
  | VDict items => forallb (fun kv => nan_free (snd kv)) items
  | _ => true
  end.

(** [str(n)] for a non-negative [int]. *)
Definition str_of_nat (n : nat) : string :=
  NilEmpty.string_of_uint (Nat.to_uint n).

(** ** Structural differ *)

(** One entry of the [differences] list: a dictionary with the keys
    ["type"], ["path"] and, when present, ["old_value"] and ["new_value"]. *)
Record difference := mk_difference {
  diff_type : string;
  diff_path : string;
  old_value : option value;
  new_value : option value
}.

(** [path or "root"] *)
Definition path_or_root (path : string) : string :=
  if String.eqb path "" then "root" else path.

(** [f"{path}.{key}" if path else key] *)
Definition key_path (path key : string) : string :=
  if String.eqb path "" then key else (path ++ "." ++ key)%string.

(** [f"{path}[{i}]" if path else f"[{i}]"] *)
Definition index_path (path : string) (i : nat) : string :=
  if String.eqb path "" then ("[" ++ str_of_nat i ++ "]")%string
  else (path ++ "[" ++ str_of_nat i ++ "]")%string.

(** [val1 != val2] where it is evaluated: both operands have the same type,
    which is neither [dict] nor [list].  On floats this is IEEE inequality,
    so [nan != nan] holds. *)
Definition prim_ne (val1 val2 : value) : bool :=
  match val1, val2 with
  | VNone, VNone => false
  | VBool a, VBool b => negb (Bool.eqb a b)
  | VInt a, VInt b => negb (Z.eqb a b)
  | VFloat a, VFloat b => negb (SFeqb a b)
  | VStr a, VStr b => negb (String.eqb a b)
  | _, _ => true
  end.

Definition type_mismatch (path : string) (val1 val2 : value) : difference :=
  mk_difference "Type mismatch" (path_or_root path)
    (Some (VStr (type_name (type_of val1))))
    (Some (VStr (type_name (type_of val2)))).

Definition key_removed (path key : string) (d1 : dict) : difference :=
  mk_difference "Key removed" (key_path path key) (dict_get key d1) None.

Definition key_added (path key : string) (d2 : dict) : difference :=
  mk_difference "Key added" (key_path path key) None (dict_get key d2).

Definition length_mismatch (path : string) (l1 l2 : list value) : difference :=
  mk_difference "Array length mismatch" (path_or_root path)
    (Some (VInt (Z.of_nat (List.length l1))))
    (Some (VInt (Z.of_nat (List.length l2)))).

Definition value_changed (path : string) (val1 val2 : value) : difference :=
  mk_difference "Value changed" (path_or_root path) (Some val1) (Some val2).

(** [keys1 - keys2] and [keys1 & keys2].  A Python set iterates in an
    unspecified order; the order of [keys1] is taken here. *)
Definition keys_minus (keys1 keys2 : list string) : list string :=
  filter (fun k => negb (str_mem k keys2)) keys1.

(** [_compare_values(val1, val2, path, differences, ignore_order)]; the
    list [differences] that the source appends to is threaded through and
    returned. *)
Fixpoint _compare_values (val1 val2 : value) (path : string)
    (differences : list difference) (ignore_order : bool) {struct val1}
    : list difference :=
  if negb (pytype_eqb (type_of val1) (type_of val2)) then
    differences ++ [type_mismatch path val1 val2]
  else
    match val1, val2 with
    | VDict d1, VDict d2 =>
        let differences :=
          fold_left (fun diffs key => diffs ++ [key_removed path key d1])
            (keys_minus (keys d1) (keys d2)) differences in
        let differences :=
          fold_left (fun diffs key => diffs ++ [key_added path key d2])
            (keys_minus (keys d2) (keys d1)) differences in
        (fix shared (items : dict) (differences : list difference)
           {struct items} : list difference :=
           match items with
           | [] => differences
           | (key, v1) :: rest =>
               match dict_get key d2 with
               | Some v2 =>
                   shared rest
                     (_compare_values v1 v2 (key_path path key) differences
                        ignore_order)
               | None => shared rest differences
               end
           end) d1 differences
    | VList l1, VList l2 =>
        let differences :=
          if negb (Nat.eqb (List.length l1) (List.length l2)) then
            differences ++ [length_mismatch path l1 l2]
          else differences in
        if ignore_order then differences
        else
          (fix pairs (i : nat) (l1 l2 : list value)
             (differences : list difference) {struct l1} : list difference :=
             match l1, l2 with
             | item1 :: l1', item2 :: l2' =>
                 pairs (S i) l1' l2'
                   (_compare_values item1 item2 (index_path path i) differences
                      ignore_order)
             | _, _ => differences
             end) 0%nat l1 l2 differences
    | _, _ =>
        if prim_ne val1 val2 then differences ++ [value_changed path val1 val2]
        else differences
    end.

(** [compare_json] after both documents are parsed. *)
Definition compare_json (data1 data2 : value) (ignore_order : bool)
    : list difference :=
  _compare_values data1 data2 "" [] ignore_order.

(** 1.0 as a binary64 number. *)
Definition float_one : spec_float := Eval cbv in SFone 53 1024.

(** ** The loops of [_compare_values], named *)

(** [for key in keys1 & keys2: _compare_values(val1[key], val2[key], ...)] *)
Fixpoint compare_shared (d2 : dict) (path : string) (ignore_order : bool)
    (items : dict) (differences : list difference) : list difference :=
  match items with
  | [] => differences
  | (key, v1) :: rest =>
      match dict_get key d2 with
      | Some v2 =>
          compare_shared d2 path ignore_order rest
            (_compare_values v1 v2 (key_path path key) differences
               ignore_order)
      | None => compare_shared d2 path ignore_order rest differences
      end
  end.

(** [for i, (item1, item2) in enumerate(zip(val1, val2)): ...] *)
Fixpoint compare_pairs (path : string) (ignore_order : bool) (i : nat)
    (l1 l2 : list value) (differences : list difference)
    : list difference :=
  match l1, l2 with
  | item1 :: l1', item2 :: l2' =>
      compare_pairs path ignore_order (S i) l1' l2'
        (_compare_values item1 item2 (index_path path i) differences
           ignore_order)
  | _, _ => differences
  end.

Definition appends (v1 : value) : Prop :=
  forall v2 path differences ignore_order,
    _compare_values v1 v2 path differences ignore_order
    = differences ++ _compare_values v1 v2 path [] ignore_order.

(** Every "Type mismatch" entry names two different types. *)
Definition mismatch_distinct (e : difference) : Prop :=
  diff_type e = "Type mismatch" -> old_value e <> new_value e.

Definition emits_distinct (v1 : value) : Prop :=
  forall v2 path ignore_order,
    Forall mismatch_distinct (_compare_values v1 v2 path [] ignore_order).

Definition self_equal (x : value) : Prop :=
  forall path differences ignore_order,
    _compare_values x x path differences ignore_order = differences.


(** ** Exceptions

    Every function either returns or raises.  [ValueError msg] is a
    [ValueError] the module raises itself, with its message; the other
    constructors are the exceptions of the interpreter's own operations:
    a failed tuple unpacking and a failed [int()] (both [ValueError]s),
    [KeyError], [IndexError] and [TypeError] of a subscript. *)
Inductive exn :=
| ValueError (msg : string)
| UnpackError
| IntLiteralError
| KeyError
| IndexError
| TypeError.

Inductive result (A : Type) :=
| Ok (a : A)
| Raise (e : exn).
Arguments Ok {A} a.
Arguments Raise {A} e.

Definition bind {A B : Type} (r : result A) (k : A -> result B) : result B :=
  match r with
  | Ok a => k a
  | Raise e => Raise e
  end.

Notation "x <- r ;; k" := (bind r (fun x => k))
  (at level 61, r at next level, right associativity).

(** ** Deep merge *)

(** [_deep_merge(dict1, value)] for a [value] that is a [dict]; the
    recursion descends into the values of the second dictionary. *)
Fixpoint deep_merge_value (dict1 : dict) (v2 : value) {struct v2} : dict :=
  match v2 with
  | VDict dict2 =>
      (fix items_loop (result items : dict) {struct items} : dict :=
         match items with
         | [] => result
         | (key, value) :: rest =>
             items_loop
               (match dict_get key result, value with
                | Some (VDict sub), VDict _ =>
                    dict_set key (VDict (deep_merge_value sub value)) result
                | _, _ => dict_set key value result
                end) rest
         end) dict1 dict2
  | _ => dict1
  end.

Definition _deep_merge (dict1 dict2 : dict) : dict :=
  deep_merge_value dict1 (VDict dict2).

(** One iteration of the loop of [_deep_merge]. *)
Definition merge_item (result : dict) (item : string * value) : dict :=
  let (key, value) := item in
  match dict_get key result, value with
  | Some (VDict sub), VDict sub2 =>
      dict_set key (VDict (_deep_merge sub sub2)) result
  | _, _ => dict_set key value result
  end.

(** [result.update(obj)] *)
Definition dict_update (result obj : dict) : dict :=
  fold_left (fun r (item : string * value) => dict_set (fst item) (snd item) r)
    obj result.

(** What [json.loads] does with one input text. *)
Inductive loaded :=
| Loaded (data : value)
| JSONDecodeError (msg : string).

(** The parsing loop of [merge_json]; [i] is the index of [enumerate]. *)
Fixpoint parse_objects (i : nat) (json_objects : list loaded)
    (parsed_objects : list dict) : result (list dict) :=
  match json_objects with
  | [] => Ok parsed_objects
  | Loaded (VDict d) :: rest =>
      parse_objects (S i) rest (parsed_objects ++ [d])
  | Loaded _ :: _ =>
      Raise (ValueError
               ("Object " ++ str_of_nat (i + 1) ++ " is not a JSON object")
               %string)
  | JSONDecodeError msg :: _ =>
      Raise (ValueError
               ("Invalid JSON in object " ++ str_of_nat (i + 1) ++ ": "
                ++ msg)%string)
  end.

(** [merge_json(json_objects, deep_merge)], each text of [json_objects]
    given by what [json.loads] does with it. *)
Definition merge_json (json_objects : list loaded) (deep_merge : bool)
    : result dict :=
  match json_objects with
  | [] => Ok []
  | _ =>
      parsed_objects <- parse_objects 0 json_objects [] ;;
      Ok (fold_left
            (fun result obj =>
               if deep_merge then _deep_merge result obj
               else dict_update result obj)
            parsed_objects [])
  end.

Definition loaded_dicts (docs : list dict) : list loaded :=
  map (fun d => Loaded (VDict d)) docs.

(** The merged value the specification gives for one key of the overlay. *)
Definition merged_entry (base_value : option value) (overlay_value : value)
    : value :=
  match base_value, overlay_value with
  | Some (VDict b), VDict o => VDict (_deep_merge b o)
  | _, _ => overlay_value
  end.

(** ** Strings

    Strings are taken over the ASCII characters, one [ascii] for each
    character; the operations below are those of [str] on such strings.
    The digits and blanks outside ASCII that [int()] also accepts are not
    represented. *)

(** [c in s] for a one-character [c] *)
Fixpoint contains (c : ascii) (s : string) : bool :=
  match s with
  | EmptyString => false
  | String a rest => Ascii.eqb a c || contains c rest
  end.

(** [s.split(sep)] for a one-character separator *)
Fixpoint split_on (sep : ascii) (s : string) : list string :=
  match s with
  | EmptyString => [EmptyString]
  | String a rest =>
      if Ascii.eqb a sep then EmptyString :: split_on sep rest
      else
        match split_on sep rest with
        | [] => [String a EmptyString]
        | part :: parts => String a part :: parts
        end
  end.

(** [s.rstrip(c)] for a one-character [c] *)
Fixpoint rstrip (c : ascii) (s : string) : string :=
  match s with
  | EmptyString => EmptyString
  | String a rest =>
      match rstrip c rest with
      | EmptyString =>
          if Ascii.eqb a c then EmptyString else String a EmptyString
      | kept => String a kept
      end
  end.

(** [s[n:]] *)
Fixpoint str_drop (n : nat) (s : string) : string :=
  match n, s with
  | O, _ => s
  | S n', String _ rest => str_drop n' rest
  | S _, EmptyString => EmptyString
  end.

(** The characters [int()] skips around a literal: tab, line feed, vertical
    tab, form feed, carriage return, the separators 0x1c to 0x1f, space. *)
Definition is_space (c : ascii) : bool :=
  let n := nat_of_ascii c in
  ((9 <=? n) && (n <=? 13) || (28 <=? n) && (n <=? 32))%nat.

Definition is_digit (c : ascii) : bool :=
  let n := nat_of_ascii c in ((48 <=? n) && (n <=? 57))%nat.

Definition digit_value (c : ascii) : Z := Z.of_nat (nat_of_ascii c) - 48.

Fixpoint lstrip_space (s : string) : string :=
  match s with
  | String a rest => if is_space a then lstrip_space rest else s
  | EmptyString => EmptyString
  end.

Fixpoint rstrip_space (s : string) : string :=
  match s with
  | EmptyString => EmptyString
  | String a rest =>
      match rstrip_space rest with
      | EmptyString => if is_space a then EmptyString else String a EmptyString
      | kept => String a kept
      end
  end.

(** The digits of a decimal literal: at least one digit, single
    underscores allowed between digits. *)
Fixpoint parse_digits (s : string) (acc : Z) (after_digit : bool)
    : option Z :=
  match s with
  | EmptyString => if after_digit then Some acc else None
  | String c rest =>
      if is_digit c then parse_digits rest (10 * acc + digit_value c) true
      else if Ascii.eqb c "_" && after_digit then parse_digits rest acc false
      else None
  end.

(** [int(s)]: [None] stands for the [ValueError] of a malformed literal. *)
Definition py_int (s : string) : option Z :=
  match rstrip_space (lstrip_space s) with
  | String "-" digits => option_map Z.opp (parse_digits digits 0 false)
  | String "+" digits => parse_digits digits 0 false
  | digits => parse_digits digits 0 false
  end.

(** ** Path extractor *)

(** [current[key]] for a [str] key *)
Definition getitem_str (current : value) (key : string) : result value :=
  match current with
  | VDict d =>
      match dict_get key d with
      | Some v => Ok v
      | None => Raise KeyError
      end
  | _ => Raise TypeError
  end.

(** A sequence index: a negative index counts from the end. *)
Definition seq_index (index : Z) (len : nat) : option nat :=
  let i := if (index <? 0)%Z then (index + Z.of_nat len)%Z else index in
  if ((0 <=? i) && (i <? Z.of_nat len))%Z then Some (Z.to_nat i) else None.

(** [current[index]] for an [int] index *)
Definition getitem_int (current : value) (index : Z) : result value :=
  match current with
  | VList elems =>
      match seq_index index (List.length elems) with
      | Some i =>
          match nth_error elems i with
          | Some v => Ok v
          | None => Raise IndexError
          end
      | None => Raise IndexError
      end
  | VStr s =>
      match seq_index index (String.length s) with
      | Some i =>
          match String.get i s with
          | Some c => Ok (VStr (String c EmptyString))
          | None => Raise IndexError
          end
      | None => Raise IndexError
      end
  | VDict _ => Raise KeyError
  | _ => Raise TypeError
  end.

(** The body of the loop over [parts], with the check that ends it. *)
Definition extract_part (path : string) (current : value) (part : string)
    : result value :=
  current <-
    (if contains "[" part && contains "]" part then
       match split_on "[" part with
       | [key; index_str] =>
           match py_int (rstrip "]" index_str) with
           | Some index =>
               current <- (if String.eqb key "" then Ok current
                           else getitem_str current key) ;;
               getitem_int current index
           | None => Raise IntLiteralError
           end
       | _ => Raise UnpackError
       end
     else
       match current with
       | VDict d =>
           Ok (match dict_get part d with Some v => v | None => VNone end)
       | _ =>
           Raise (ValueError
                    ("Cannot access '" ++ part ++ "' on non-object")%string)
       end) ;;
  match current with
  | VNone => Raise (ValueError ("Path not found: " ++ path)%string)
  | _ => Ok current
  end.

Fixpoint extract_parts (path : string) (parts : list string)
    (current : value) : result value :=
  match parts with
  | [] => Ok current
  | part :: rest =>
      current <- extract_part path current part ;;
      extract_parts path rest current
  end.

(** [extract_json_path] after the document is parsed. *)
Definition extract_json_path (data : value) (path : string) : result value :=
  let path := if String.prefix "$." path then str_drop 2 path else path in
  extract_parts path (split_on "." path) data.

(** ** Paths as the specification describes them

    A path is a sequence of selectors, each a field name or an index.  In
    the path text the segments are separated by dots; a segment is a field
    name, a field name with a trailing bracketed index (select the field,
    then index into the result), or a bracketed index alone (index into the
    current value). *)
Inductive selector :=
| Field (name : string)
| Index (i : nat).

Definition spec_select (v : value) (s : selector) : option value :=
  match s, v with
  | Field name, VDict d => dict_get name d
  | Index i, VList elems => nth_error elems i
  | _, _ => None
  end.

Fixpoint spec_resolve (v : value) (p : list selector) : option value :=
  match p with
  | [] => Some v
  | s :: rest =>
      match spec_select v s with
      | Some v' => spec_resolve v' rest
      | None => None
      end
  end.

Inductive segment :=
| FieldSeg (name : string)
| FieldIndexSeg (name : string) (i : nat)
| IndexSeg (i : nat).

Definition selectors_of (seg : segment) : list selector :=
  match seg with
  | FieldSeg name => [Field name]
  | FieldIndexSeg name i => [Field name; Index i]
  | IndexSeg i => [Index i]
  end.

Definition path_selectors (segs : list segment) : list selector :=
  flat_map selectors_of segs.

Definition render_segment (seg : segment) : string :=
  match seg with
  | FieldSeg name => name
  | FieldIndexSeg name i => (name ++ "[" ++ str_of_nat i ++ "]")%string
  | IndexSeg i => ("[" ++ str_of_nat i ++ "]")%string
  end.

Fixpoint render_path (segs : list segment) : string :=
  match segs with
  | [] => EmptyString
  | [seg] => render_segment seg
  | seg :: rest => (render_segment seg ++ "." ++ render_path rest)%string
  end.

(** A field name that the path text can carry: no dot and no bracket; with
    an index it is not empty. *)
Definition plain_name (name : string) : bool :=
  negb (contains "." name) && negb (contains "[" name)
  && negb (contains "]" name).

Definition wf_segment (seg : segment) : bool :=
  match seg with
  | FieldSeg name => plain_name name
  | FieldIndexSeg name _ => plain_name name && negb (String.eqb name "")
  | IndexSeg _ => true
  end.

Fixpoint digits_only (s : string) : bool :=
  match s with
  | EmptyString => true
  | String a rest => is_digit a && digits_only rest
  end.

(** What the extractor does with the value the path leads to. *)
Definition found (path : string) (v : value) : result value :=
  match v with
  | VNone => Raise (ValueError ("Path not found: " ++ path)%string)
  | _ => Ok v
  end.

(** ** Further notions used by the properties below *)

Definition is_dict (v : value) : bool :=
  match v with VDict _ => true | _ => false end.

(** A dictionary none of whose values is a dictionary. *)
Definition flat (d : dict) : bool :=
  forallb (fun kv => negb (is_dict (snd kv))) d.

(** What the recursive merge of a value with itself is expected to give. *)
Definition merges_to_itself (v : value) : Prop :=
  match v with
  | VDict d => wf_value v = true -> _deep_merge d d = d
  | _ => True
  end.

(** Merging a well-formed dictionary into a well-formed one. *)
Definition merge_keeps_wf (v : value) : Prop :=
  match v with
  | VDict overlay =>
      forall base,
        wf_value (VDict base) = true -> wf_value v = true ->
        wf_value (VDict (_deep_merge base overlay)) = true
  | _ => True
  end.

(** An input text that parses to a dictionary. *)
Definition loaded_dict (j : loaded) : bool :=
  match j with
  | Loaded (VDict _) => true
  | _ => false
  end.

(** One step of [result.update(obj)]. *)
Definition update_item (r : dict) (item : string * value) : dict :=
  dict_set (fst item) (snd item) r.

(** Two documents that are the same: of the same type, with equal
    primitive values (IEEE equality on floats), arrays the same element by
    element, and objects with the same keys holding the same values,
    whatever the order of the keys. *)
Unset Elimination Schemes.
Inductive same_document : value -> value -> Prop :=
| same_none : same_document VNone VNone
| same_bool (b : bool) : same_document (VBool b) (VBool b)
| same_int (n : Z) : same_document (VInt n) (VInt n)
| same_float (f g : spec_float) :
    SFeqb f g = true -> same_document (VFloat f) (VFloat g)
| same_str (s : string) : same_document (VStr s) (VStr s)
| same_list (l1 l2 : list value) :
    Forall2 same_document l1 l2 -> same_document (VList l1) (VList l2)
| same_dict (d1 d2 : dict) :
    (forall key, dict_get key d1 = None <-> dict_get key d2 = None) ->
    (forall key x y,
        dict_get key d1 = Some x -> dict_get key d2 = Some y ->
        same_document x y) ->
    same_document (VDict d1) (VDict d2).
Set Elimination Schemes.

(** The two directions of "no difference means the same document", as
    properties of the first document. *)
Definition empty_diff_sound (v1 : value) : Prop :=
  forall v2 path,
    _compare_values v1 v2 path [] false = [] -> same_document v1 v2.

Definition empty_diff_complete (v1 : value) : Prop :=
  forall v2 path differences ignore_order,
    wf_value v1 = true -> same_document v1 v2 ->
    _compare_values v1 v2 path differences ignore_order = differences.

Definition relaxed_included (v1 : value) : Prop :=
  forall v2 path,
    incl (_compare_values v1 v2 path [] true)
         (_compare_values v1 v2 path [] false).

(** An entry whose path lies under [path]: it is [path] followed by some
    suffix. *)
Definition under (path : string) (e : difference) : Prop :=
  exists suffix, diff_path e = (path ++ suffix)%string.

Definition emits_under (v1 : value) : Prop :=
  forall v2 path ignore_order,
    Forall (under path) (_compare_values v1 v2 path [] ignore_order).
Example diff_four_categories :
  compare_json
    (VDict [("a", VInt 1); ("b", VInt 2); ("c", VInt 3)])
    (VDict [("b", VInt 2); ("c", VInt 4); ("d", VInt 5)]) false
  = [ mk_difference "Key removed" "a" (Some (VInt 1)) None;
      mk_difference "Key added" "d" None (Some (VInt 5));
      mk_difference "Value changed" "c" (Some (VInt 3)) (Some (VInt 4)) ].
Proof. reflexivity. Qed.

(** ** Basic facts about dictionaries and key lists *)

Lemma str_mem_In (s : string) (l : list string) :
  str_mem s l = true <-> In s l.
Proof.
  induction l as [|x l IH]; simpl.
  - split; [discriminate | tauto].
  - rewrite orb_true_iff, IH, String.eqb_eq. tauto.
Qed.

Lemma str_mem_false (s : string) (l : list string) :
  str_mem s l = false <-> ~ In s l.
Proof.
  rewrite <- str_mem_In. destruct (str_mem s l); split; congruence.
Qed.

Lemma unique_NoDup (l : list string) : unique l = true <-> NoDup l.
Proof.
  induction l as [|x l IH]; simpl.
  - split; [constructor | reflexivity].
  - rewrite andb_true_iff, negb_true_iff, str_mem_false, IH.
    split.
    + intros [H1 H2]. now constructor.
    + intros H. inversion H; subst. tauto.
Qed.

Lemma dict_get_None (key : string) (d : dict) :
  dict_get key d = None <-> ~ In key (keys d).
Proof.
  induction d as [|[k v] d IH]; simpl.
  - tauto.
  - destruct (String.eqb_spec k key) as [->|Hne].
    + split; [discriminate | tauto].
    + rewrite IH. tauto.
Qed.

Lemma dict_get_Some_In (key : string) (d : dict) (v : value) :
  dict_get key d = Some v -> In (key, v) d.
Proof.
  induction d as [|[k w] d IH]; simpl; [discriminate|].
  destruct (String.eqb_spec k key) as [->|Hne].
  - intros [= ->]. now left.
  - auto.
Qed.

Lemma dict_get_In_keys (key : string) (d : dict) :
  In key (keys d) <-> exists v, dict_get key d = Some v.
Proof.
  destruct (dict_get key d) as [v|] eqn:E.
  - split; [eauto|]. intros _.
    apply dict_get_Some_In in E. apply (in_map fst) in E. exact E.
  - apply dict_get_None in E. split; [tauto|]. now intros [v Hv].
Qed.

Lemma dict_get_unique (key : string) (v : value) (d : dict) :
  NoDup (keys d) -> In (key, v) d -> dict_get key d = Some v.
Proof.
  induction d as [|[k w] d IH]; simpl; [tauto|].
  intros Hnd Hin. inversion Hnd as [|? ? Hk Hnd']; subst.
  destruct Hin as [[= -> ->]|Hin].
  - now rewrite String.eqb_refl.
  - destruct (String.eqb_spec k key) as [->|Hne]; [|auto].
    exfalso. apply Hk. apply (in_map fst) in Hin. exact Hin.
Qed.

Lemma keys_minus_self (l : list string) : keys_minus l l = [].
Proof.
  unfold keys_minus.
  assert (H : forall l', incl l' l ->
            filter (fun k => negb (str_mem k l)) l' = []).
  { induction l' as [|x l' IH]; intros Hincl; simpl; [reflexivity|].
    assert (Hx : str_mem x l = true)
      by (apply str_mem_In, Hincl; now left).
    rewrite Hx. simpl. apply IH. intros y Hy. apply Hincl. now right. }
  apply H, incl_refl.
Qed.

Lemma fold_left_snoc {A B : Type} (f : A -> B) (l : list A) (acc : list B) :
  fold_left (fun diffs x => diffs ++ [f x]) l acc = acc ++ map f l.
Proof.
  revert acc. induction l as [|x l IH]; intros acc; simpl.
  - now rewrite app_nil_r.
  - rewrite IH, <- app_assoc. reflexivity.
Qed.

Lemma pytype_eqb_eq (t1 t2 : pytype) : pytype_eqb t1 t2 = true <-> t1 = t2.
Proof. destruct t1, t2; simpl; split; congruence. Qed.

Lemma type_name_inj (t1 t2 : pytype) : type_name t1 = type_name t2 -> t1 = t2.
Proof. destruct t1, t2; simpl; intros H; try reflexivity; discriminate H. Qed.

Lemma kind_of_type_of (v1 v2 : value) :
  type_of v1 = type_of v2 -> kind_of v1 = kind_of v2.
Proof. destruct v1, v2; simpl; intros H; try reflexivity; discriminate H. Qed.


Lemma compare_values_mismatch (val1 val2 : value) (path : string)
    (differences : list difference) (ignore_order : bool) :
  type_of val1 <> type_of val2 ->
  _compare_values val1 val2 path differences ignore_order
  = differences ++ [type_mismatch path val1 val2].
Proof.
  intros Hne.
  assert (E : pytype_eqb (type_of val1) (type_of val2) = false).
  { destruct (pytype_eqb _ _) eqn:E; [|reflexivity].
    apply pytype_eqb_eq in E. contradiction. }
  destruct val1; simpl in *; rewrite E; reflexivity.
Qed.

Lemma compare_values_dict (d1 d2 : dict) (path : string)
    (differences : list difference) (ignore_order : bool) :
  _compare_values (VDict d1) (VDict d2) path differences ignore_order
  = compare_shared d2 path ignore_order d1
      ((differences
          ++ map (fun key => key_removed path key d1)
               (keys_minus (keys d1) (keys d2)))
         ++ map (fun key => key_added path key d2)
              (keys_minus (keys d2) (keys d1))).
Proof.
  cbn [_compare_values type_of pytype_eqb negb].
  rewrite !fold_left_snoc.
  generalize ((differences
          ++ map (fun key => key_removed path key d1)
               (keys_minus (keys d1) (keys d2)))
         ++ map (fun key => key_added path key d2)
              (keys_minus (keys d2) (keys d1))).
  generalize d1. intros items.
  induction items as [|[key v1] rest IH]; intros diffs; [reflexivity|].
  cbn [compare_shared]. destruct (dict_get key d2); rewrite <- IH; reflexivity.
Qed.

Lemma compare_values_list (l1 l2 : list value) (path : string)
    (differences : list difference) (ignore_order : bool) :
  _compare_values (VList l1) (VList l2) path differences ignore_order
  = let differences :=
      if negb (Nat.eqb (List.length l1) (List.length l2)) then
        differences ++ [length_mismatch path l1 l2]
      else differences in
    if ignore_order then differences
    else compare_pairs path ignore_order 0 l1 l2 differences.
Proof.
  cbn [_compare_values type_of pytype_eqb negb]. cbv zeta.
  destruct ignore_order; [reflexivity|].
  generalize (if negb (Nat.eqb (List.length l1) (List.length l2))
              then differences ++ [length_mismatch path l1 l2]
              else differences).
  generalize 0%nat. generalize l2. generalize l1.
  intros a. induction a as [|x a IH]; intros b i diffs; [reflexivity|].
  destruct b as [|y b]; [reflexivity|].
  cbn [compare_pairs]. rewrite <- IH. reflexivity.
Qed.

Lemma compare_values_prim (val1 val2 : value) (path : string)
    (differences : list difference) (ignore_order : bool) :
  type_of val1 = type_of val2 ->
  type_of val1 <> TList -> type_of val1 <> TDict ->
  _compare_values val1 val2 path differences ignore_order
  = if prim_ne val1 val2 then differences ++ [value_changed path val1 val2]
    else differences.
Proof.
  intros Heq Hl Hd.
  destruct val1, val2; simpl in *; try discriminate Heq; try reflexivity;
    contradiction.
Qed.

(** ** The differ only appends *)


Lemma compare_shared_app (d2 : dict) (path : string) (ignore_order : bool)
    (items : dict) :
  Forall (fun kv => appends (snd kv)) items ->
  forall differences,
    compare_shared d2 path ignore_order items differences
    = differences ++ compare_shared d2 path ignore_order items [].
Proof.
  induction 1 as [|[key v1] rest Hv _ IH]; intros diffs; simpl.
  - now rewrite app_nil_r.
  - destruct (dict_get key d2) as [v2|]; [|apply IH].
    rewrite IH. rewrite (IH (_compare_values _ _ _ [] _)).
    simpl in Hv. rewrite Hv, app_assoc. reflexivity.
Qed.

Lemma compare_pairs_app (path : string) (ignore_order : bool)
    (l1 : list value) :
  Forall appends l1 ->
  forall l2 i differences,
    compare_pairs path ignore_order i l1 l2 differences
    = differences ++ compare_pairs path ignore_order i l1 l2 [].
Proof.
  induction 1 as [|x l1 Hx _ IH]; intros l2 i diffs; simpl.
  - now rewrite app_nil_r.
  - destruct l2 as [|y l2]; [now rewrite app_nil_r|].
    rewrite IH. rewrite (IH _ _ (_compare_values _ _ _ [] _)).
    rewrite Hx, app_assoc. reflexivity.
Qed.

Lemma compare_values_app (v1 : value) : appends v1.
Proof.
  induction v1 using value_ind; intros v2 path diffs io.
  1-5: match goal with
       | |- _compare_values ?a _ _ _ _ = _ =>
           destruct v2;
           try (rewrite !(compare_values_mismatch a) by discriminate;
                reflexivity);
           rewrite !(compare_values_prim a) by (reflexivity || discriminate);
           destruct (prim_ne _ _); [reflexivity | now rewrite app_nil_r]
       end.
  - destruct v2;
      try (rewrite !(compare_values_mismatch (VList elems)) by discriminate;
           reflexivity).
    rewrite !compare_values_list. cbv zeta.
    destruct io.
    + destruct (negb _); [reflexivity | now rewrite app_nil_r].
    + rewrite (compare_pairs_app path false elems H).
      rewrite (compare_pairs_app path false elems H _ _
                 (if negb _ then [] ++ _ else [])).
      rewrite app_assoc. f_equal.
      destruct (negb _); [reflexivity | now rewrite app_nil_r].
  - destruct v2;
      try (rewrite !(compare_values_mismatch (VDict items)) by discriminate;
           reflexivity).
    rewrite !compare_values_dict.
    rewrite (compare_shared_app _ _ _ _ H).
    rewrite (compare_shared_app _ _ _ _ H (([] ++ _) ++ _)).
    simpl. rewrite !app_assoc. reflexivity.
Qed.

Lemma type_mismatch_distinct (path : string) (v1 v2 : value) :
  type_of v1 <> type_of v2 -> mismatch_distinct (type_mismatch path v1 v2).
Proof.
  intros Hne _. simpl. intros [= E]. apply Hne, type_name_inj, E.
Qed.

Lemma compare_shared_distinct (d2 : dict) (path : string)
    (ignore_order : bool) (items : dict) :
  Forall (fun kv => emits_distinct (snd kv)) items ->
  forall differences,
    Forall mismatch_distinct differences ->
    Forall mismatch_distinct
      (compare_shared d2 path ignore_order items differences).
Proof.
  induction 1 as [|[key v1] rest Hv _ IH]; intros diffs Hd; simpl.
  - exact Hd.
  - destruct (dict_get key d2) as [v2|]; [|now apply IH].
    apply IH. rewrite compare_values_app.
    apply Forall_app; split; [exact Hd | apply Hv].
Qed.

Lemma compare_pairs_distinct (path : string) (ignore_order : bool)
    (l1 : list value) :
  Forall emits_distinct l1 ->
  forall l2 i differences,
    Forall mismatch_distinct differences ->
    Forall mismatch_distinct
      (compare_pairs path ignore_order i l1 l2 differences).
Proof.
  induction 1 as [|x l1 Hx _ IH]; intros l2 i diffs Hd; simpl.
  - exact Hd.
  - destruct l2 as [|y l2]; [exact Hd|].
    apply IH. rewrite compare_values_app.
    apply Forall_app; split; [exact Hd | apply Hx].
Qed.

Lemma compare_values_distinct (v1 : value) : emits_distinct v1.
Proof.
  induction v1 using value_ind; intros v2 path io.
  1-5: match goal with
       | |- Forall _ (_compare_values ?a _ _ _ _) =>
           destruct v2;
           try (rewrite (compare_values_mismatch a) by discriminate;
                repeat constructor;
                apply type_mismatch_distinct; discriminate);
           rewrite (compare_values_prim a) by (reflexivity || discriminate);
           destruct (prim_ne _ _); repeat constructor; discriminate
       end.
  - destruct v2;
      try (rewrite (compare_values_mismatch (VList elems)) by discriminate;
           repeat constructor; apply type_mismatch_distinct; discriminate).
    rewrite compare_values_list. cbv zeta.
    assert (Hd : Forall mismatch_distinct
                   (if negb (Nat.eqb (List.length elems) (List.length elems0))
                    then [] ++ [length_mismatch path elems elems0] else [])).
    { destruct (negb _); repeat constructor. discriminate. }
    destruct io; [exact Hd|].
    now apply compare_pairs_distinct.
  - destruct v2;
      try (rewrite (compare_values_mismatch (VDict items)) by discriminate;
           repeat constructor; apply type_mismatch_distinct; discriminate).
    rewrite compare_values_dict.
    apply compare_shared_distinct; [exact H|].
    apply Forall_app; split; [apply Forall_app; split; [constructor|]|];
      apply Forall_forall; intros e He; apply in_map_iff in He;
      destruct He as [k [<- _]]; discriminate.
Qed.

(** ** Comparing a document with itself *)

Lemma SFeqb_refl (f : spec_float) : is_nan f = false -> SFeqb f f = true.
Proof.
  destruct f as [s|s| |s m e]; simpl; try reflexivity; try discriminate.
  - intros _. destruct s; reflexivity.
  - intros _. unfold SFeqb, SFcompare.
    rewrite Z.compare_refl, Pos.compare_cont_refl. destruct s; reflexivity.
Qed.


Lemma compare_shared_refl (d2 : dict) (path : string) (ignore_order : bool)
    (items : dict) :
  (forall k v, In (k, v) items -> dict_get k d2 = Some v /\ self_equal v) ->
  forall differences,
    compare_shared d2 path ignore_order items differences = differences.
Proof.
  induction items as [|[k v] rest IH]; intros Hall diffs; [reflexivity|].
  simpl. destruct (Hall k v) as [-> Hv]; [now left|].
  rewrite Hv. apply IH. intros k' v' Hin. apply Hall. now right.
Qed.

Lemma compare_pairs_refl (path : string) (ignore_order : bool)
    (l : list value) :
  (forall x, In x l -> self_equal x) ->
  forall i differences,
    compare_pairs path ignore_order i l l differences = differences.
Proof.
  induction l as [|x l IH]; intros Hall i diffs; [reflexivity|].
  simpl. rewrite (Hall x) by now left.
  apply IH. intros y Hy. apply Hall. now right.
Qed.

Lemma compare_values_refl (x : value) :
  wf_value x = true -> nan_free x = true -> self_equal x.
Proof.
  induction x using value_ind; intros Hwf Hnan path diffs io.
  1-5: match goal with
       | |- _compare_values ?a _ _ _ _ = _ =>
           rewrite (compare_values_prim a) by (reflexivity || discriminate)
       end; simpl.
  - reflexivity.
  - now rewrite Bool.eqb_reflx.
  - now rewrite Z.eqb_refl.
  - simpl in Hnan. apply negb_true_iff in Hnan.
    now rewrite SFeqb_refl.
  - now rewrite String.eqb_refl.
  - rewrite compare_values_list. cbv zeta. rewrite Nat.eqb_refl. simpl.
    destruct io; [reflexivity|].
    simpl in Hwf, Hnan. rewrite forallb_forall in Hwf, Hnan.
    rewrite Forall_forall in H.
    apply compare_pairs_refl. intros y Hy. apply H; auto.
  - rewrite compare_values_dict, !keys_minus_self. simpl. rewrite !app_nil_r.
    simpl in Hwf, Hnan. apply andb_true_iff in Hwf. destruct Hwf as [Hu Hwf].
    apply unique_NoDup in Hu.
    rewrite forallb_forall in Hwf, Hnan. rewrite Forall_forall in H.
    apply compare_shared_refl. intros k v Hin. split.
    + now apply dict_get_unique.
    + apply (H (k, v) Hin); [apply (Hwf (k, v) Hin) | apply (Hnan (k, v) Hin)].
Qed.

(** ** Deep merge as a fold over the items of the overlay *)

Lemma deep_merge_fold (dict1 dict2 : dict) :
  _deep_merge dict1 dict2 = fold_left merge_item dict2 dict1.
Proof.
  unfold _deep_merge. cbn [deep_merge_value].
  revert dict1. induction dict2 as [|[key v] rest IH]; intros dict1;
    [reflexivity|].
  cbn [fold_left]. rewrite <- IH. unfold merge_item, _deep_merge.
  destruct (dict_get key dict1) as [[]|] eqn:E; destruct v;
    cbn iota beta; rewrite ?E; reflexivity.
Qed.

Lemma dict_get_set_same (key : string) (v : value) (d : dict) :
  dict_get key (dict_set key v d) = Some v.
Proof.
  induction d as [|[k w] d IH]; simpl.
  - now rewrite String.eqb_refl.
  - destruct (String.eqb k key) eqn:E; simpl; now rewrite E.
Qed.

Lemma dict_get_set_other (key key' : string) (v : value) (d : dict) :
  key <> key' -> dict_get key' (dict_set key v d) = dict_get key' d.
Proof.
  intros Hne. induction d as [|[k w] d IH]; simpl.
  - apply String.eqb_neq in Hne. now rewrite Hne.
  - destruct (String.eqb_spec k key) as [->|Hk]; simpl.
    + apply String.eqb_neq in Hne. now rewrite Hne.
    + now rewrite IH.
Qed.

Lemma merge_item_get_same (result : dict) (key : string) (value : value) :
  dict_get key (merge_item result (key, value))
  = Some (merged_entry (dict_get key result) value).
Proof.
  unfold merge_item, merged_entry.
  destruct (dict_get key result) as [[]|]; destruct value;
    apply dict_get_set_same.
Qed.

Lemma merge_item_get_other (result : dict) (key key' : string)
    (value : value) :
  key <> key' ->
  dict_get key' (merge_item result (key, value)) = dict_get key' result.
Proof.
  intros Hne. unfold merge_item.
  destruct (dict_get key result) as [[]|]; destruct value;
    now apply dict_get_set_other.
Qed.

Lemma fold_merge_get_absent (items : dict) (key : string) :
  ~ In key (keys items) ->
  forall result,
    dict_get key (fold_left merge_item items result) = dict_get key result.
Proof.
  induction items as [|[k v] rest IH]; intros Hnin result; [reflexivity|].
  cbn [fold_left]. simpl in Hnin. rewrite IH by tauto.
  apply merge_item_get_other. intros ->. tauto.
Qed.

Lemma fold_merge_get_present (items : dict) (key : string) (v2 : value) :
  NoDup (keys items) -> In (key, v2) items ->
  forall result,
    dict_get key (fold_left merge_item items result)
    = Some (merged_entry (dict_get key result) v2).
Proof.
  induction items as [|[k v] rest IH]; intros Hnd Hin result; [destruct Hin|].
  simpl in Hnd. inversion Hnd as [|? ? Hk Hnd']; subst.
  cbn [fold_left]. destruct Hin as [[= -> ->]|Hin].
  - rewrite fold_merge_get_absent by exact Hk.
    apply merge_item_get_same.
  - rewrite IH by assumption.
    rewrite merge_item_get_other; [reflexivity|].
    intros ->. apply Hk. apply (in_map fst) in Hin. exact Hin.
Qed.

Lemma deep_merge_get_present (base overlay : dict) (key : string)
    (v2 : value) :
  unique (keys overlay) = true -> dict_get key overlay = Some v2 ->
  dict_get key (_deep_merge base overlay)
  = Some (merged_entry (dict_get key base) v2).
Proof.
  intros Hu Hget. rewrite deep_merge_fold.
  apply fold_merge_get_present.
  - now apply unique_NoDup.
  - now apply dict_get_Some_In.
Qed.

Lemma deep_merge_get_absent (base overlay : dict) (key : string) :
  dict_get key overlay = None ->
  dict_get key (_deep_merge base overlay) = dict_get key base.
Proof.
  intros Hget. rewrite deep_merge_fold.
  apply fold_merge_get_absent. now apply dict_get_None.
Qed.

Lemma deep_merge_keys (base overlay : dict) (key : string) :
  unique (keys overlay) = true ->
  In key (keys (_deep_merge base overlay))
  <-> In key (keys base) \/ In key (keys overlay).
Proof.
  intros Hu. rewrite !dict_get_In_keys.
  destruct (dict_get key overlay) as [v2|] eqn:E.
  - rewrite (deep_merge_get_present base overlay key v2 Hu E).
    split; eauto.
  - rewrite (deep_merge_get_absent base overlay key E).
    split; [eauto|]. intros [H|[v H]]; [exact H | discriminate H].
Qed.

Lemma dict_set_fresh (key : string) (v : value) (d : dict) :
  ~ In key (keys d) -> dict_set key v d = d ++ [(key, v)].
Proof.
  induction d as [|[k w] d IH]; simpl; intros Hnin; [reflexivity|].
  destruct (String.eqb_spec k key) as [->|Hne]; [tauto|].
  rewrite IH by tauto. reflexivity.
Qed.

Lemma fold_merge_fresh (items result : dict) :
  NoDup (keys result ++ keys items) ->
  fold_left merge_item items result = result ++ items.
Proof.
  revert result. induction items as [|[k v] rest IH]; intros result Hnd.
  - now rewrite app_nil_r.
  - cbn [fold_left]. simpl in Hnd.
    assert (Hk : ~ In k (keys result)).
    { apply NoDup_remove_2 in Hnd. intros Hin. apply Hnd.
      apply in_or_app. now left. }
    assert (E : merge_item result (k, v) = result ++ [(k, v)]).
    { unfold merge_item. apply dict_get_None in Hk. rewrite Hk.
      apply dict_set_fresh. now apply dict_get_None. }
    rewrite E, IH.
    + now rewrite <- app_assoc.
    + unfold keys in *. rewrite map_app. simpl. rewrite <- app_assoc.
      exact Hnd.
Qed.

Lemma deep_merge_empty_left (d : dict) :
  unique (keys d) = true -> _deep_merge [] d = d.
Proof.
  intros Hu. rewrite deep_merge_fold.
  apply (fold_merge_fresh d []). simpl. now apply unique_NoDup.
Qed.

(** ** The parsing loop of [merge_json] *)

Lemma parse_objects_dicts (docs : list dict) (i : nat) (parsed : list dict) :
  parse_objects i (loaded_dicts docs) parsed = Ok (parsed ++ docs).
Proof.
  revert i parsed. induction docs as [|d docs IH]; intros i parsed; simpl.
  - now rewrite app_nil_r.
  - rewrite IH, <- app_assoc. reflexivity.
Qed.

Lemma merge_json_dicts (docs : list dict) :
  merge_json (loaded_dicts docs) true = Ok (fold_left _deep_merge docs []).
Proof.
  destruct docs as [|d docs]; [reflexivity|].
  unfold merge_json. cbn [loaded_dicts map].
  change (Loaded (VDict d) :: map (fun d0 => Loaded (VDict d0)) docs)
    with (loaded_dicts (d :: docs)).
  rewrite parse_objects_dicts. reflexivity.
Qed.

Lemma parse_objects_not_dict (docs : list value) :
  forall i parsed n v,
    nth_error docs n = Some v -> type_of v <> TDict ->
    (forall m w, (m < n)%nat -> nth_error docs m = Some w ->
                 type_of w = TDict) ->
    parse_objects i (map Loaded docs) parsed
    = Raise (ValueError
               ("Object " ++ str_of_nat (i + n + 1) ++ " is not a JSON object")
               %string).
Proof.
  induction docs as [|d docs IH]; intros i parsed n v Hn Hv Hbefore.
  - destruct n; discriminate Hn.
  - destruct n as [|n].
    + simpl in Hn. injection Hn as ->. rewrite Nat.add_0_r.
      destruct v; try reflexivity. now contradiction Hv.
    + assert (Hd : type_of d = TDict)
        by (apply (Hbefore 0%nat d); [lia | reflexivity]).
      destruct d; try discriminate Hd. simpl.
      rewrite (IH (S i) _ n v Hn Hv).
      * replace (S i + n + 1)%nat with (i + S n + 1)%nat by lia. reflexivity.
      * intros m w Hm Hw. apply (Hbefore (S m) w); [lia | exact Hw].
Qed.

(** ** Strings: membership, splitting, stripping *)

Lemma contains_app (c : ascii) (s t : string) :
  contains c (s ++ t)%string = contains c s || contains c t.
Proof.
  induction s as [|a s IH]; simpl; [reflexivity|].
  now rewrite IH, orb_assoc.
Qed.

Lemma split_on_no_sep (sep : ascii) (s : string) :
  contains sep s = false -> split_on sep s = [s].
Proof.
  induction s as [|a s IH]; simpl; [reflexivity|].
  intros H. apply orb_false_iff in H. destruct H as [Ha Hs].
  now rewrite Ha, IH.
Qed.

Lemma split_on_app_sep (sep : ascii) (s t : string) :
  contains sep s = false ->
  split_on sep (s ++ String sep t)%string = s :: split_on sep t.
Proof.
  induction s as [|a s IH]; simpl.
  - intros _. now rewrite Ascii.eqb_refl.
  - intros H. apply orb_false_iff in H. destruct H as [Ha Hs].
    now rewrite Ha, IH.
Qed.

Lemma digits_only_uint (d : uint) :
  digits_only (NilEmpty.string_of_uint d) = true.
Proof. induction d; simpl; auto. Qed.

Lemma digits_only_contains (c : ascii) (s : string) :
  digits_only s = true -> is_digit c = false -> contains c s = false.
Proof.
  intros Hs Hc. induction s as [|a s IH]; simpl in *; [reflexivity|].
  apply andb_true_iff in Hs. destruct Hs as [Ha Hs].
  rewrite IH by exact Hs.
  destruct (Ascii.eqb_spec a c) as [->|]; [congruence | reflexivity].
Qed.

Lemma rstrip_digits (c : ascii) (s : string) :
  digits_only s = true -> is_digit c = false -> rstrip c s = s.
Proof.
  intros Hs Hc. induction s as [|a s IH]; simpl in *; [reflexivity|].
  apply andb_true_iff in Hs. destruct Hs as [Ha Hs].
  rewrite IH by exact Hs. destruct s; [|reflexivity].
  destruct (Ascii.eqb_spec a c) as [->|]; [congruence | reflexivity].
Qed.

Lemma rstrip_snoc (c : ascii) (s : string) :
  rstrip c (s ++ String c EmptyString)%string = rstrip c s.
Proof.
  induction s as [|a s IH]; simpl.
  - now rewrite Ascii.eqb_refl.
  - now rewrite IH.
Qed.

Lemma digit_not_space (a : ascii) : is_digit a = true -> is_space a = false.
Proof.
  destruct a as [[|] [|] [|] [|] [|] [|] [|] [|]];
    intros H; try reflexivity; discriminate H.
Qed.

Lemma lstrip_space_digits (s : string) :
  digits_only s = true -> lstrip_space s = s.
Proof.
  destruct s as [|a s]; simpl; [reflexivity|].
  intros H. apply andb_true_iff in H. destruct H as [Ha _].
  now rewrite (digit_not_space a Ha).
Qed.

Lemma rstrip_space_digits (s : string) :
  digits_only s = true -> rstrip_space s = s.
Proof.
  induction s as [|a s IH]; simpl; [reflexivity|].
  intros H. apply andb_true_iff in H. destruct H as [Ha Hs].
  rewrite IH by exact Hs. destruct s; [|reflexivity].
  now rewrite (digit_not_space a Ha).
Qed.

(** ** Decimal literals *)

Lemma parse_digits_uint (d : uint) :
  forall (acc : nat) (after_digit : bool),
    d <> Nil \/ after_digit = true ->
    parse_digits (NilEmpty.string_of_uint d) (Z.of_nat acc) after_digit
    = Some (Z.of_nat (Nat.of_uint_acc d acc)).
Proof.
  induction d; intros acc b Hne;
    try (cbn [NilEmpty.string_of_uint parse_digits Nat.of_uint_acc];
         match goal with
         | |- (if is_digit ?c then _ else _) = _ =>
             change (is_digit c) with true; cbv iota
         end;
         rewrite <- (IHd _ true) by (now right); f_equal;
         rewrite Nat.tail_mul_spec; unfold digit_value;
         match goal with
         | |- context [nat_of_ascii ?c] =>
             let n := eval cbv in (nat_of_ascii c) in
             change (nat_of_ascii c) with n
         end; lia).
  simpl. destruct Hne as [Hne | ->]; [now contradiction Hne | reflexivity].
Qed.

Lemma to_uint_not_nil (n : nat) : Nat.to_uint n <> Nil.
Proof.
  pose proof (DecimalNat.Unsigned.to_of (Nat.to_uint n)) as E.
  rewrite DecimalNat.Unsigned.of_to in E. rewrite E.
  unfold unorm. destruct (nzhead (Nat.to_uint n)); discriminate.
Qed.

Lemma py_int_str_of_nat (n : nat) : py_int (str_of_nat n) = Some (Z.of_nat n).
Proof.
  unfold py_int, str_of_nat.
  pose proof (digits_only_uint (Nat.to_uint n)) as Hd.
  rewrite lstrip_space_digits, rstrip_space_digits by exact Hd.
  assert (Hp : parse_digits (NilEmpty.string_of_uint (Nat.to_uint n)) 0 false
               = Some (Z.of_nat n)).
  { change 0%Z with (Z.of_nat 0).
    rewrite (parse_digits_uint (Nat.to_uint n) 0 false)
      by (left; apply to_uint_not_nil).
    change (Nat.of_uint_acc (Nat.to_uint n) 0) with
      (Nat.of_uint (Nat.to_uint n)).
    now rewrite DecimalNat.Unsigned.of_to. }
  destruct (NilEmpty.string_of_uint (Nat.to_uint n)) as [|a s] eqn:E;
    [exact Hp|].
  simpl in Hd. apply andb_true_iff in Hd. destruct Hd as [Ha _].
  destruct a as [[|] [|] [|] [|] [|] [|] [|] [|]];
    try discriminate Ha; exact Hp.
Qed.

(** ** One segment of a path *)

Lemma str_of_nat_digits (n : nat) : digits_only (str_of_nat n) = true.
Proof. apply digits_only_uint. Qed.

Lemma str_of_nat_no (c : ascii) (n : nat) :
  is_digit c = false -> contains c (str_of_nat n) = false.
Proof. apply digits_only_contains, str_of_nat_digits. Qed.

Lemma seq_index_nat (i len : nat) :
  (i < len)%nat -> seq_index (Z.of_nat i) len = Some i.
Proof.
  intros Hlt. unfold seq_index.
  destruct (Z.ltb_spec (Z.of_nat i) 0) as [Hneg|_]; [lia|].
  destruct (Z.leb_spec 0 (Z.of_nat i)) as [_|Hneg]; [|lia].
  destruct (Z.ltb_spec (Z.of_nat i) (Z.of_nat len)) as [_|Hge]; [|lia].
  simpl. now rewrite Nat2Z.id.
Qed.

Lemma getitem_int_list (elems : list value) (i : nat) (v : value) :
  nth_error elems i = Some v ->
  getitem_int (VList elems) (Z.of_nat i) = Ok v.
Proof.
  intros Hnth. simpl.
  rewrite seq_index_nat by (apply nth_error_Some; congruence).
  now rewrite Hnth.
Qed.

Lemma bracket_part (name : string) (i : nat) :
  contains "[" name = false ->
  let part := (name ++ "[" ++ str_of_nat i ++ "]")%string in
  contains "[" part && contains "]" part = true /\
  split_on "[" part = [name; (str_of_nat i ++ "]")%string] /\
  py_int (rstrip "]" (str_of_nat i ++ "]")%string) = Some (Z.of_nat i).
Proof.
  intros Hname part. unfold part. split; [|split].
  - rewrite !contains_app. simpl. now rewrite !orb_true_r.
  - change (name ++ "[" ++ str_of_nat i ++ "]")%string
      with (name ++ String "[" (str_of_nat i ++ "]"))%string.
    rewrite split_on_app_sep by exact Hname.
    rewrite split_on_no_sep; [reflexivity|].
    rewrite contains_app. now rewrite str_of_nat_no.
  - rewrite rstrip_snoc.
    rewrite rstrip_digits by (reflexivity || apply str_of_nat_digits).
    apply py_int_str_of_nat.
Qed.

Lemma plain_name_spec (name : string) :
  plain_name name = true ->
  contains "." name = false /\ contains "[" name = false
  /\ contains "]" name = false.
Proof.
  unfold plain_name. rewrite !andb_true_iff, !negb_true_iff. tauto.
Qed.

Lemma extract_part_segment (path : string) (current : value)
    (seg : segment) (v : value) :
  wf_segment seg = true ->
  spec_resolve current (selectors_of seg) = Some v ->
  extract_part path current (render_segment seg) = found path v.
Proof.
  intros Hwf Hres. destruct seg as [name|name i|i]; simpl in Hwf, Hres.
  - apply plain_name_spec in Hwf. destruct Hwf as [_ [Hb _]].
    unfold extract_part. cbn [render_segment]. rewrite Hb. simpl.
    destruct current; try discriminate Hres. simpl in Hres.
    destruct (dict_get name items) as [w|]; [|discriminate Hres].
    injection Hres as ->. reflexivity.
  - apply andb_true_iff in Hwf. destruct Hwf as [Hplain Hne].
    apply plain_name_spec in Hplain. destruct Hplain as [_ [Hb _]].
    apply negb_true_iff in Hne.
    destruct (bracket_part name i Hb) as [Hc [Hs Hi]].
    unfold extract_part. cbn [render_segment]. rewrite Hc, Hs, Hi, Hne.
    destruct current; try discriminate Hres. simpl in Hres.
    cbn [getitem_str]. destruct (dict_get name items) as [w|];
      [|discriminate Hres].
    destruct w; try discriminate Hres. simpl in Hres.
    destruct (nth_error elems i) as [u|] eqn:Hnth; [|discriminate Hres].
    injection Hres as ->.
    cbn [bind]. rewrite (getitem_int_list elems i v Hnth). reflexivity.
  - destruct (bracket_part EmptyString i eq_refl) as [Hc [Hs Hi]].
    unfold extract_part. cbn [render_segment].
    change ("[" ++ str_of_nat i ++ "]")%string
      with ("" ++ "[" ++ str_of_nat i ++ "]")%string.
    rewrite Hc, Hs, Hi.
    destruct current; try discriminate Hres. simpl in Hres.
    destruct (nth_error elems i) as [u|] eqn:Hnth; [|discriminate Hres].
    injection Hres as ->.
    cbn [String.eqb bind]. rewrite (getitem_int_list elems i v Hnth).
    reflexivity.
Qed.

(** ** A whole path *)

Lemma spec_resolve_app (v : value) (p q : list selector) :
  spec_resolve v (p ++ q)
  = match spec_resolve v p with
    | Some v' => spec_resolve v' q
    | None => None
    end.
Proof.
  revert v. induction p as [|s p IH]; intros v; simpl; [reflexivity|].
  destruct (spec_select v s); [apply IH | reflexivity].
Qed.

Lemma spec_resolve_none (segs : list segment) :
  segs <> [] -> spec_resolve VNone (path_selectors segs) = None.
Proof.
  destruct segs as [|[name|name i|i] rest]; [congruence| | |]; reflexivity.
Qed.

Lemma render_segment_no_dot (seg : segment) :
  wf_segment seg = true -> contains "." (render_segment seg) = false.
Proof.
  destruct seg as [name|name i|i]; simpl; intros Hwf.
  - now apply plain_name_spec in Hwf.
  - apply andb_true_iff in Hwf. destruct Hwf as [Hplain _].
    apply plain_name_spec in Hplain. destruct Hplain as [Hd _].
    rewrite !contains_app, Hd. simpl. rewrite contains_app.
    now rewrite str_of_nat_no.
  - rewrite contains_app. now rewrite str_of_nat_no.
Qed.

Lemma split_render_path (segs : list segment) :
  segs <> [] -> forallb wf_segment segs = true ->
  split_on "." (render_path segs) = map render_segment segs.
Proof.
  induction segs as [|seg rest IH]; [congruence|].
  intros _ Hwf. simpl in Hwf. apply andb_true_iff in Hwf.
  destruct Hwf as [Hseg Hrest].
  destruct rest as [|seg' rest].
  - simpl. apply split_on_no_sep. now apply render_segment_no_dot.
  - change (render_path (seg :: seg' :: rest))
      with (render_segment seg ++ String "." (render_path (seg' :: rest)))
           %string.
    rewrite split_on_app_sep by now apply render_segment_no_dot.
    rewrite IH by (congruence || exact Hrest). reflexivity.
Qed.

Lemma extract_parts_segments (path : string) (segs : list segment) :
  forall current v,
    segs <> [] -> forallb wf_segment segs = true ->
    spec_resolve current (path_selectors segs) = Some v ->
    extract_parts path (map render_segment segs) current = found path v.
Proof.
  induction segs as [|seg rest IH]; intros current v Hne Hwf Hres;
    [congruence|].
  simpl in Hwf. apply andb_true_iff in Hwf. destruct Hwf as [Hseg Hrest].
  unfold path_selectors in Hres. cbn [flat_map] in Hres.
  rewrite spec_resolve_app in Hres.
  destruct (spec_resolve current (selectors_of seg)) as [v1|] eqn:E1;
    [|discriminate Hres].
  cbn [map extract_parts].
  rewrite (extract_part_segment path current seg v1 Hseg E1).
  destruct rest as [|seg' rest].
  - simpl in Hres. injection Hres as ->. simpl.
    unfold found. now destruct v.
  - assert (Hv1 : v1 <> VNone).
    { intros ->. fold (path_selectors (seg' :: rest)) in Hres.
      rewrite spec_resolve_none in Hres by congruence. discriminate Hres. }
    assert (Ef : found path v1 = Ok v1) by (destruct v1; simpl; congruence).
    rewrite Ef. cbn [bind]. apply IH; [congruence | exact Hrest | exact Hres].
Qed.

Lemma extract_rendered_path (d : value) (segs : list segment) (v : value) :
  segs <> [] -> forallb wf_segment segs = true ->
  spec_resolve d (path_selectors segs) = Some v ->
  extract_json_path d ("$." ++ render_path segs) = found (render_path segs) v
  /\ (String.prefix "$." (render_path segs) = false ->
      extract_json_path d (render_path segs) = found (render_path segs) v).
Proof.
  intros Hne Hwf Hres.
  assert (H : extract_parts (render_path segs)
                (split_on "." (render_path segs)) d
              = found (render_path segs) v).
  { rewrite split_render_path by assumption.
    now apply extract_parts_segments. }
  split.
  - unfold extract_json_path.
    assert (Ep : String.prefix "$." ("$." ++ render_path segs) = true)
      by (destruct (render_path segs); reflexivity).
    rewrite Ep. exact H.
  - intros Hp. unfold extract_json_path. rewrite Hp. exact H.
Qed.

(** ** Properties of the structural differ *)

Example diff_int_vs_float :
  compare_json (VInt 1) (VFloat float_one) false
  = [mk_difference "Type mismatch" "root"
       (Some (VStr "int")) (Some (VStr "float"))].
Proof. reflexivity. Qed.

Example diff_nan_nan :
  compare_json (VFloat S754_nan) (VFloat S754_nan) false
  = [mk_difference "Value changed" "root"
       (Some (VFloat S754_nan)) (Some (VFloat S754_nan))].
Proof. reflexivity. Qed.

(** C4, as stated, fails: the integer 1 and the float 1.0 are both of kind
    Number, yet their comparison is not empty and consists of one
    "Type mismatch" entry. *)
Lemma number_pair_type_mismatch :
  kind_of (VInt 1) = Number /\ kind_of (VFloat float_one) = Number /\
  compare_json (VInt 1) (VFloat float_one) false <> [] /\
  In (type_mismatch "" (VInt 1) (VFloat float_one))
     (compare_json (VInt 1) (VFloat float_one) false).
Proof.
  repeat split; try discriminate. left. reflexivity.
Qed.

(** C4 (amended): a "Type mismatch" entry for the two values compared at a
    path is emitted exactly when their runtime types (NoneType, bool, int,
    float, str, list, dict) differ.  Values of different JSON kinds always
    have different types.  Two integers, or two floats, never give a type
    mismatch and compare as empty exactly when they are equal; an integer
    against a float always gives the single "Type mismatch" entry. *)
Theorem type_mismatch_iff_types_differ :
  (forall val1 val2 path ignore_order,
      In (type_mismatch path val1 val2)
         (_compare_values val1 val2 path [] ignore_order)
      <-> type_of val1 <> type_of val2) /\
  (forall val1 val2, kind_of val1 <> kind_of val2 ->
      type_of val1 <> type_of val2) /\
  (forall a b path ignore_order,
      _compare_values (VInt a) (VInt b) path [] ignore_order
      = if Z.eqb a b then [] else [value_changed path (VInt a) (VInt b)]) /\
  (forall f g path ignore_order,
      _compare_values (VFloat f) (VFloat g) path [] ignore_order
      = if SFeqb f g then []
        else [value_changed path (VFloat f) (VFloat g)]) /\
  (forall a f path ignore_order,
      _compare_values (VInt a) (VFloat f) path [] ignore_order
      = [type_mismatch path (VInt a) (VFloat f)] /\
      _compare_values (VFloat f) (VInt a) path [] ignore_order
      = [type_mismatch path (VFloat f) (VInt a)]).
Proof.
  split; [|split; [|split; [|split]]].
  - intros val1 val2 path io. split.
    + intros Hin Heq.
      pose proof (compare_values_distinct val1 val2 path io) as Hd.
      rewrite Forall_forall in Hd. apply (Hd _ Hin); [reflexivity|].
      simpl. now rewrite Heq.
    + intros Hne. rewrite compare_values_mismatch by exact Hne. now left.
  - intros val1 val2 Hk Ht. apply Hk, kind_of_type_of, Ht.
  - intros a b path io. simpl. now destruct (Z.eqb a b).
  - intros f g path io. simpl. now destruct (SFeqb f g).
  - intros a f path io. split; reflexivity.
Qed.

Lemma type_mismatch_iff_types_differ_witness :
  type_of (VBool true) <> type_of (VInt 1) /\
  In (type_mismatch "a" (VBool true) (VInt 1))
     (_compare_values (VBool true) (VInt 1) "a" [] false).
Proof.
  split; [discriminate|].
  apply (proj1 type_mismatch_iff_types_differ (VBool true) (VInt 1) "a" false).
  discriminate.
Defined.

(** C5: an "Array length mismatch" entry is appended whenever the lengths
    of two arrays differ, with or without [ignore_order]; with
    [ignore_order] set that entry is all that is appended, and arrays of the
    same length add nothing whatever their contents. *)
Theorem ignore_order_length_check_only :
  (forall l1 l2 path differences ignore_order,
      List.length l1 <> List.length l2 ->
      exists rest,
        _compare_values (VList l1) (VList l2) path differences ignore_order
        = differences ++ length_mismatch path l1 l2 :: rest) /\
  (forall l1 l2 path differences,
      List.length l1 <> List.length l2 ->
      _compare_values (VList l1) (VList l2) path differences true
      = differences ++ [length_mismatch path l1 l2]) /\
  (forall l1 l2 path differences,
      List.length l1 = List.length l2 ->
      _compare_values (VList l1) (VList l2) path differences true
      = differences) /\
  compare_json (VDict [("a", VList [VInt 1; VInt 2])])
               (VDict [("a", VList [VInt 1; VInt 2; VInt 3])]) true
  = [mk_difference "Array length mismatch" "a"
       (Some (VInt 2)) (Some (VInt 3))].
Proof.
  split; [|split; [|split]].
  - intros l1 l2 path diffs io Hne.
    apply Nat.eqb_neq in Hne.
    rewrite compare_values_list. cbv zeta. rewrite Hne. simpl.
    destruct io.
    + exists []. reflexivity.
    + exists (compare_pairs path false 0 l1 l2 []).
      rewrite compare_pairs_app by (apply Forall_forall; intros;
                                    apply compare_values_app).
      rewrite <- app_assoc. reflexivity.
  - intros l1 l2 path diffs Hne. apply Nat.eqb_neq in Hne.
    rewrite compare_values_list. cbv zeta. now rewrite Hne.
  - intros l1 l2 path diffs Heq. apply Nat.eqb_eq in Heq.
    rewrite compare_values_list. cbv zeta. now rewrite Heq.
  - reflexivity.
Qed.

Lemma ignore_order_length_check_only_witness :
  List.length [VInt 1; VInt 2] = List.length [VStr "x"; VNone] /\
  _compare_values (VList [VInt 1; VInt 2]) (VList [VStr "x"; VNone]) "a"
    [] true = [].
Proof.
  split; [reflexivity|].
  apply (proj1 (proj2 (proj2 ignore_order_length_check_only))).
  reflexivity.
Defined.

(** C7, as stated, fails: a document that is the float NaN differs from
    itself. *)
Lemma diff_not_reflexive_on_nan :
  ~ (forall x ignore_order, compare_json x x ignore_order = []).
Proof.
  intros H. specialize (H (VFloat S754_nan) false). discriminate H.
Qed.

(** C7 (amended): for every document [x] in which no number is NaN,
    comparing [x] with itself yields no difference. *)
Theorem diff_reflexive (x : value) (ignore_order : bool) :
  wf_value x = true -> nan_free x = true ->
  compare_json x x ignore_order = [].
Proof.
  intros Hwf Hnan. unfold compare_json. now apply compare_values_refl.
Qed.

Lemma diff_reflexive_witness :
  let x := VDict [("a", VList [VInt 1; VFloat float_one; VNone]);
                  ("b", VDict [("c", VStr "s"); ("d", VBool true)])] in
  wf_value x = true /\ nan_free x = true /\ compare_json x x false = [].
Proof.
  intros x. split; [reflexivity|]. split; [reflexivity|].
  apply (diff_reflexive x false); reflexivity.
Defined.

(** C8: when the kinds of the two values compared at a path differ, exactly
    one "Type mismatch" entry for that path is appended and the comparison
    does not descend; comparing {a:1} with {a:{x:1}} gives that single
    entry at path a. *)
Theorem type_mismatch_short_circuits :
  (forall val1 val2 path differences ignore_order,
      kind_of val1 <> kind_of val2 ->
      _compare_values val1 val2 path differences ignore_order
      = differences ++ [type_mismatch path val1 val2]) /\
  (forall ignore_order,
      compare_json (VDict [("a", VInt 1)])
                   (VDict [("a", VDict [("x", VInt 1)])]) ignore_order
      = [mk_difference "Type mismatch" "a"
           (Some (VStr "int")) (Some (VStr "dict"))]).
Proof.
  split.
  - intros val1 val2 path diffs io Hk.
    apply compare_values_mismatch. intros Ht.
    apply Hk, kind_of_type_of, Ht.
  - intros io. reflexivity.
Qed.

Lemma type_mismatch_short_circuits_witness :
  kind_of (VInt 1) <> kind_of (VDict [("x", VInt 1)]) /\
  _compare_values (VInt 1) (VDict [("x", VInt 1)]) "a" [] false
  = [] ++ [type_mismatch "a" (VInt 1) (VDict [("x", VInt 1)])].
Proof.
  split; [discriminate|].
  apply (proj1 type_mismatch_short_circuits). discriminate.
Defined.

(** ** Properties of the merge *)

Example merge_nested_objects :
  merge_json (loaded_dicts [[("a", VDict [("x", VInt 1)])];
                            [("a", VDict [("y", VInt 2)])]]) true
  = Ok [("a", VDict [("x", VInt 1); ("y", VInt 2)])].
Proof. reflexivity. Qed.

Example merge_arrays_replace :
  merge_json (loaded_dicts [[("a", VList [VInt 1; VInt 2])];
                            [("a", VList [VInt 3])]]) true
  = Ok [("a", VList [VInt 3])].
Proof. reflexivity. Qed.

Lemma first_non_dict (docs : list value) :
  (exists v, In v docs /\ type_of v <> TDict) ->
  exists n v,
    nth_error docs n = Some v /\ type_of v <> TDict /\
    forall m w, (m < n)%nat -> nth_error docs m = Some w -> type_of w = TDict.
Proof.
  induction docs as [|d docs IH]; intros [v [Hin Hv]]; [destruct Hin|].
  destruct (pytype_eqb (type_of d) TDict) eqn:E.
  - apply pytype_eqb_eq in E.
    destruct Hin as [->|Hin]; [contradiction|].
    destruct IH as [n [w [Hn [Hw Hbefore]]]]; [now exists v|].
    exists (S n), w. repeat split; try assumption.
    intros m u Hm Hu. destruct m as [|m].
    + simpl in Hu. now injection Hu as <-.
    + apply (Hbefore m u); [lia | exact Hu].
  - exists 0%nat, d. repeat split.
    + intros Hd. apply pytype_eqb_eq in Hd. congruence.
    + intros m w Hm. lia.
Qed.

Lemma kind_object_type_dict (v : value) :
  kind_of v = Object <-> type_of v = TDict.
Proof. destruct v; simpl; split; congruence. Qed.

(** C3: deep merge of two objects.  For each key of the overlay, when the
    base has the key and both values are objects the result holds their
    recursive merge, otherwise it holds the overlay's value (an array is
    taken as it is); the other keys keep the base's value, and the keys of
    the result are those of the base together with those of the overlay. *)
Theorem deep_merge_two_objects (base overlay : dict) :
  unique (keys overlay) = true ->
  (forall key v2,
      dict_get key overlay = Some v2 ->
      dict_get key (_deep_merge base overlay)
      = Some (match dict_get key base, v2 with
              | Some (VDict b), VDict o => VDict (_deep_merge b o)
              | _, _ => v2
              end)) /\
  (forall key elems,
      dict_get key overlay = Some (VList elems) ->
      dict_get key (_deep_merge base overlay) = Some (VList elems)) /\
  (forall key,
      dict_get key overlay = None ->
      dict_get key (_deep_merge base overlay) = dict_get key base) /\
  (forall key,
      In key (keys (_deep_merge base overlay))
      <-> In key (keys base) \/ In key (keys overlay)).
Proof.
  intros Hu. split; [|split; [|split]].
  - intros key v2 Hget. now apply deep_merge_get_present.
  - intros key elems Hget.
    rewrite (deep_merge_get_present base overlay key _ Hu Hget).
    unfold merged_entry. now destruct (dict_get key base) as [[]|].
  - intros key Hget. now apply deep_merge_get_absent.
  - intros key. now apply deep_merge_keys.
Qed.

Lemma deep_merge_two_objects_witness :
  let base := [("a", VDict [("x", VInt 1)]); ("b", VList [VInt 1; VInt 2])] in
  let overlay := [("b", VList [VInt 3]); ("a", VDict [("y", VInt 2)])] in
  unique (keys overlay) = true /\
  dict_get "a" (_deep_merge base overlay)
  = Some (VDict (_deep_merge [("x", VInt 1)] [("y", VInt 2)])) /\
  dict_get "b" (_deep_merge base overlay) = Some (VList [VInt 3]).
Proof.
  intros base overlay.
  pose proof (deep_merge_two_objects base overlay eq_refl) as H.
  split; [reflexivity|]. split.
  - apply (proj1 H "a" (VDict [("y", VInt 2)])). reflexivity.
  - apply (proj1 (proj2 H) "b" [VInt 3]). reflexivity.
Defined.

(** C6: merging a sequence of objects is the left fold of [_deep_merge]
    over the sequence, starting from the empty object; a value of the last
    document that is not an object is the value of the result at its key,
    whatever the earlier documents hold; merge([{a:1}, {a:2}]) is {a:2}. *)
Theorem merge_json_left_fold :
  (forall docs,
      merge_json (loaded_dicts docs) true
      = Ok (fold_left _deep_merge docs [])) /\
  (forall docs last key v,
      unique (keys last) = true ->
      dict_get key last = Some v -> type_of v <> TDict ->
      exists merged,
        merge_json (loaded_dicts (docs ++ [last])) true = Ok merged /\
        dict_get key merged = Some v) /\
  merge_json (loaded_dicts [[("a", VInt 1)]; [("a", VInt 2)]]) true
  = Ok [("a", VInt 2)].
Proof.
  split; [|split].
  - apply merge_json_dicts.
  - intros docs last key v Hu Hget Hv.
    exists (fold_left _deep_merge (docs ++ [last]) []).
    split; [apply merge_json_dicts|].
    rewrite fold_left_app. cbn [fold_left].
    rewrite (deep_merge_get_present _ last key v Hu Hget).
    unfold merged_entry.
    destruct (dict_get key (fold_left _deep_merge docs [])) as [[]|];
      destruct v; try reflexivity; exfalso; apply Hv; reflexivity.
  - reflexivity.
Qed.

Lemma merge_json_left_fold_witness :
  let docs := [[("a", VDict [("x", VInt 1)]); ("b", VInt 0)]] in
  let last := [("a", VStr "s")] in
  unique (keys last) = true /\ dict_get "a" last = Some (VStr "s") /\
  type_of (VStr "s") <> TDict /\
  exists merged,
    merge_json (loaded_dicts (docs ++ [last])) true = Ok merged /\
    dict_get "a" merged = Some (VStr "s").
Proof.
  intros docs last. split; [reflexivity|]. split; [reflexivity|].
  split; [discriminate|].
  apply (proj1 (proj2 merge_json_left_fold) docs last "a" (VStr "s"));
    [reflexivity | reflexivity | discriminate].
Defined.

(** C9: when some document of the sequence is not an object, the merge
    raises the error "Object n is not a JSON object", where n is the
    one-based position of such a document (the first one), and returns no
    merged result. *)
Theorem merge_rejects_non_object (docs : list value) (deep_merge : bool) :
  (exists v, In v docs /\ kind_of v <> Object) ->
  exists n v,
    nth_error docs n = Some v /\ kind_of v <> Object /\
    merge_json (map Loaded docs) deep_merge
    = Raise (ValueError
               ("Object " ++ str_of_nat (n + 1) ++ " is not a JSON object")
               %string).
Proof.
  intros [v [Hin Hv]].
  destruct (first_non_dict docs) as [n [w [Hn [Hw Hbefore]]]].
  { exists v. split; [exact Hin|]. now rewrite <- kind_object_type_dict. }
  exists n, w. split; [exact Hn|]. split.
  { now rewrite kind_object_type_dict. }
  destruct docs as [|d docs]; [destruct Hin|].
  unfold merge_json. cbn [map].
  change (Loaded d :: map Loaded docs) with (map Loaded (d :: docs)).
  rewrite (parse_objects_not_dict (d :: docs) 0 [] n w Hn Hw Hbefore).
  reflexivity.
Qed.

Lemma merge_rejects_non_object_witness :
  let docs := [VDict [("a", VInt 1)]; VList [VInt 1]; VDict []; VInt 3] in
  (exists v, In v docs /\ kind_of v <> Object) /\
  exists n v,
    nth_error docs n = Some v /\ kind_of v <> Object /\
    merge_json (map Loaded docs) true
    = Raise (ValueError
               ("Object " ++ str_of_nat (n + 1) ++ " is not a JSON object")
               %string).
Proof.
  intros docs.
  assert (H : exists v, In v docs /\ kind_of v <> Object).
  { exists (VInt 3). split; [simpl; tauto | discriminate]. }
  split; [exact H|].
  exact (merge_rejects_non_object docs true H).
Defined.

Example merge_rejects_second_document :
  merge_json (map Loaded [VDict [("a", VInt 1)]; VList [VInt 1]; VInt 3]) true
  = Raise (ValueError "Object 2 is not a JSON object").
Proof. reflexivity. Qed.

(** C10: merging the empty sequence returns the empty object, and the
    empty object is a left identity of the binary merge the fold starts
    from. *)
Theorem merge_empty_sequence :
  (forall deep_merge, merge_json [] deep_merge = Ok []) /\
  (forall d, unique (keys d) = true -> _deep_merge [] d = d) /\
  (forall d, unique (keys d) = true ->
             merge_json (loaded_dicts [d]) true = Ok d).
Proof.
  split; [reflexivity|]. split.
  - apply deep_merge_empty_left.
  - intros d Hu. rewrite merge_json_dicts. cbn [fold_left].
    now rewrite deep_merge_empty_left.
Qed.

Lemma merge_empty_sequence_witness :
  let d := [("a", VInt 1); ("b", VDict [("c", VNone)])] in
  unique (keys d) = true /\ _deep_merge [] d = d.
Proof.
  intros d. split; [reflexivity|].
  apply (proj1 (proj2 merge_empty_sequence) d). reflexivity.
Defined.

(** ** Properties of the path extractor *)

Example extract_user_name :
  extract_json_path (VDict [("user", VDict [("name", VStr "Alice")])])
    "user.name"
  = Ok (VStr "Alice").
Proof. reflexivity. Qed.

Example extract_absent_key :
  extract_json_path (VDict [("a", VInt 1)]) "b"
  = Raise (ValueError "Path not found: b").
Proof. reflexivity. Qed.

(** A part without brackets: an absent key is "Path not found", a value
    that is not a dictionary is "Cannot access ... on non-object". *)
Lemma extract_part_plain (path : string) (current : value) (part : string) :
  contains "[" part && contains "]" part = false ->
  (forall d, current = VDict d -> dict_get part d = None ->
     extract_part path current part
     = Raise (ValueError ("Path not found: " ++ path)%string)) /\
  (type_of current <> TDict ->
     extract_part path current part
     = Raise (ValueError ("Cannot access '" ++ part ++ "' on non-object")
                %string)).
Proof.
  intros Hplain. unfold extract_part. rewrite Hplain. split.
  - intros d -> Hget. now rewrite Hget.
  - intros Ht. destruct current; try reflexivity. now contradiction Ht.
Qed.

(** C1, as stated, fails: in the document {a: null} the path a resolves to
    null, and the extractor reports that the path is not found. *)
Lemma extract_null_not_found :
  spec_resolve (VDict [("a", VNone)]) (path_selectors [FieldSeg "a"])
  = Some VNone /\
  render_path [FieldSeg "a"] = "a" /\
  extract_json_path (VDict [("a", VNone)]) "a"
  = Raise (ValueError "Path not found: a").
Proof. repeat split. Qed.

(** C1 (amended): for every document and every path whose selectors all
    resolve in it, the extractor applied to the text of the path, with or
    without the leading "$.", returns exactly the value the path leads to,
    provided that value is not null; when the path leads to null the
    extractor raises "Path not found".  In particular the path user.name of
    {user: {name: "Alice"}} gives "Alice". *)
Theorem extract_round_trip :
  (forall d segs v,
      segs <> [] -> forallb wf_segment segs = true ->
      spec_resolve d (path_selectors segs) = Some v -> v <> VNone ->
      extract_json_path d ("$." ++ render_path segs) = Ok v /\
      (String.prefix "$." (render_path segs) = false ->
       extract_json_path d (render_path segs) = Ok v)) /\
  (forall d segs,
      segs <> [] -> forallb wf_segment segs = true ->
      spec_resolve d (path_selectors segs) = Some VNone ->
      extract_json_path d ("$." ++ render_path segs)
      = Raise (ValueError ("Path not found: " ++ render_path segs)%string)) /\
  extract_json_path (VDict [("user", VDict [("name", VStr "Alice")])])
    "user.name"
  = Ok (VStr "Alice").
Proof.
  split; [|split].
  - intros d segs v Hne Hwf Hres Hv.
    destruct (extract_rendered_path d segs v Hne Hwf Hres) as [H1 H2].
    assert (Ef : found (render_path segs) v = Ok v)
      by (destruct v; simpl; congruence).
    rewrite Ef in H1, H2. split; assumption.
  - intros d segs Hne Hwf Hres.
    exact (proj1 (extract_rendered_path d segs VNone Hne Hwf Hres)).
  - reflexivity.
Qed.

Lemma extract_round_trip_witness :
  let d := VDict [("users", VList [VDict [("name", VStr "Alice")];
                                   VDict [("name", VStr "Bob")]])] in
  let segs := [FieldIndexSeg "users" 1; FieldSeg "name"] in
  segs <> [] /\ forallb wf_segment segs = true /\
  spec_resolve d (path_selectors segs) = Some (VStr "Bob") /\
  VStr "Bob" <> VNone /\
  render_path segs = "users[1].name" /\
  extract_json_path d ("$." ++ render_path segs) = Ok (VStr "Bob").
Proof.
  intros d segs.
  assert (Hne : segs <> []) by discriminate.
  assert (Hv : VStr "Bob" <> VNone) by discriminate.
  split; [exact Hne|]. split; [reflexivity|]. split; [reflexivity|].
  split; [exact Hv|]. split; [reflexivity|].
  exact (proj1 (proj1 extract_round_trip d segs (VStr "Bob")
                  Hne eq_refl eq_refl Hv)).
Defined.

(** C2: what the extractor does when a part with a bracketed index does
    not resolve.  An index out of range ends in [IndexError], an absent key
    before the index in [KeyError], an index into a number, or a key taken
    of an array, in [TypeError], and an index into a string returns one
    character; none of these is the "Path not found" or the "Cannot access
    ... on non-object" error that the parts without brackets raise. *)
Theorem extract_bracket_errors :
  extract_json_path (VDict [("a", VList [VInt 1])]) "a[5]" = Raise IndexError
  /\ extract_json_path (VDict [("a", VList [VInt 1])]) "b[0]" = Raise KeyError
  /\ extract_json_path (VDict [("a", VInt 1)]) "a[0]" = Raise TypeError
  /\ extract_json_path (VList [VInt 1]) "a[0]" = Raise TypeError
  /\ extract_json_path (VDict [("a", VStr "hello")]) "a[0]" = Ok (VStr "h")
  /\ extract_json_path (VDict [("a", VList [VInt 1])]) "b"
     = Raise (ValueError "Path not found: b")
  /\ extract_json_path (VDict [("a", VList [VInt 1])]) "a.b"
     = Raise (ValueError "Cannot access 'b' on non-object").
Proof. repeat split. Qed.

(** ** Further properties of the merge *)

Lemma keys_dict_set (key : string) (v : value) (d : dict) :
  keys (dict_set key v d)
  = if str_mem key (keys d) then keys d else keys d ++ [key].
Proof.
  induction d as [|[k w] d IH]; simpl; [reflexivity|].
  destruct (String.eqb k key) eqn:E; simpl; [reflexivity|].
  rewrite IH. now destruct (str_mem key (keys d)).
Qed.

Lemma keys_merge_item (result : dict) (key : string) (v : value) :
  keys (merge_item result (key, v))
  = if str_mem key (keys result) then keys result else keys result ++ [key].
Proof.
  unfold merge_item.
  destruct (dict_get key result) as [[]|]; destruct v; apply keys_dict_set.
Qed.

Lemma NoDup_keys_merge_item (result : dict) (item : string * value) :
  NoDup (keys result) -> NoDup (keys (merge_item result item)).
Proof.
  destruct item as [key v]. intros Hnd. rewrite keys_merge_item.
  destruct (str_mem key (keys result)) eqn:E; [exact Hnd|].
  apply str_mem_false in E.
  apply NoDup_app; [exact Hnd | repeat constructor; simpl; tauto |].
  intros k Hk [<-|[]]. contradiction.
Qed.

Lemma forallb_dict_set (p : value -> bool) (key : string) (v : value)
    (d : dict) :
  p v = true -> forallb (fun kv => p (snd kv)) d = true ->
  forallb (fun kv => p (snd kv)) (dict_set key v d) = true.
Proof.
  intros Hv. induction d as [|[k w] d IH]; simpl.
  - now rewrite Hv.
  - intros H. apply andb_true_iff in H. destruct H as [Hw Hd].
    destruct (String.eqb k key); simpl.
    + now rewrite Hv, Hd.
    + now rewrite Hw, IH.
Qed.

Lemma dict_get_forallb (p : value -> bool) (key : string) (v : value)
    (d : dict) :
  forallb (fun kv => p (snd kv)) d = true -> dict_get key d = Some v ->
  p v = true.
Proof.
  intros Hall Hget. apply dict_get_Some_In in Hget.
  rewrite forallb_forall in Hall. exact (Hall (key, v) Hget).
Qed.

Lemma deep_merge_wf_value (v : value) : merge_keeps_wf v.
Proof.
  induction v using value_ind; simpl; try exact I.
  intros base Hbase Hov. rewrite deep_merge_fold.
  apply andb_true_iff in Hov. destruct Hov as [_ Hvals].
  revert base Hbase. induction H as [|[key v] rest Hv _ IH];
    intros base Hbase; [exact Hbase|].
  simpl in Hvals. apply andb_true_iff in Hvals. destruct Hvals as [Hwv Hrest].
  cbn [fold_left]. apply IH; [exact Hrest|].
  simpl in Hbase. apply andb_true_iff in Hbase. destruct Hbase as [Hu Hb].
  simpl. apply andb_true_iff. split.
  - apply unique_NoDup. apply (NoDup_keys_merge_item base (key, v)).
    now apply unique_NoDup.
  - simpl in Hv. unfold merge_item.
    destruct (dict_get key base) as [w|] eqn:Hget;
      [|now apply (forallb_dict_set wf_value)].
    destruct w; try now apply (forallb_dict_set wf_value).
    destruct v; try now apply (forallb_dict_set wf_value).
    apply (forallb_dict_set wf_value); [|exact Hb].
    apply Hv; [|exact Hwv].
    exact (dict_get_forallb wf_value key _ base Hb Hget).
Qed.

(** X1: the deep merge of two well-formed dictionaries (unique keys at
    every level) is a well-formed dictionary. *)
Theorem deep_merge_well_formed (base overlay : dict) :
  wf_value (VDict base) = true -> wf_value (VDict overlay) = true ->
  wf_value (VDict (_deep_merge base overlay)) = true.
Proof.
  intros Hb Ho. exact (deep_merge_wf_value (VDict overlay) base Hb Ho).
Qed.

Lemma deep_merge_well_formed_witness :
  let base := [("a", VDict [("x", VInt 1)]); ("b", VInt 2)] in
  let overlay := [("c", VNone); ("a", VDict [("y", VInt 2); ("x", VInt 0)])] in
  wf_value (VDict base) = true /\ wf_value (VDict overlay) = true /\
  wf_value (VDict (_deep_merge base overlay)) = true.
Proof.
  intros base overlay. split; [reflexivity|]. split; [reflexivity|].
  apply (deep_merge_well_formed base overlay); reflexivity.
Defined.

Lemma keys_minus_snoc_absent (l seen : list string) (key : string) :
  ~ In key l ->
  keys_minus l (seen ++ [key]) = keys_minus l seen.
Proof.
  unfold keys_minus. induction l as [|x l IH]; intros Hnin; [reflexivity|].
  simpl in *. rewrite IH by tauto.
  assert (E : str_mem x (seen ++ [key]) = str_mem x seen).
  { destruct (str_mem x seen) eqn:Es.
    - apply str_mem_In. apply in_or_app. left. now apply str_mem_In.
    - apply str_mem_false. apply str_mem_false in Es.
      intros Hin. apply in_app_or in Hin. destruct Hin as [Hin|[<-|[]]];
        tauto. }
  now rewrite E.
Qed.

Lemma fold_merge_keys (items : dict) :
  NoDup (keys items) ->
  forall result,
    keys (fold_left merge_item items result)
    = keys result ++ keys_minus (keys items) (keys result).
Proof.
  induction items as [|[k v] rest IH]; intros Hnd result.
  - simpl. now rewrite app_nil_r.
  - simpl in Hnd. inversion Hnd as [|? ? Hk Hnd']; subst.
    cbn [fold_left]. rewrite IH by exact Hnd'.
    rewrite keys_merge_item. unfold keys_minus at 2. simpl.
    destruct (str_mem k (keys result)) eqn:E; simpl; [reflexivity|].
    rewrite <- app_assoc. simpl. f_equal. f_equal.
    now apply keys_minus_snoc_absent.
Qed.

(** X2: the keys of a deep merge come in the order of the base, followed by
    the keys that only the overlay has, in the overlay's order. *)
Theorem deep_merge_key_order (base overlay : dict) :
  unique (keys overlay) = true ->
  keys (_deep_merge base overlay)
  = keys base ++ keys_minus (keys overlay) (keys base).
Proof.
  intros Hu. rewrite deep_merge_fold.
  apply fold_merge_keys. now apply unique_NoDup.
Qed.

Lemma deep_merge_key_order_witness :
  let base := [("b", VInt 1); ("a", VInt 2)] in
  let overlay := [("z", VInt 3); ("a", VInt 4); ("c", VInt 5)] in
  unique (keys overlay) = true /\
  keys (_deep_merge base overlay) = ["b"; "a"; "z"; "c"].
Proof.
  intros base overlay. split; [reflexivity|].
  apply (deep_merge_key_order base overlay). reflexivity.
Defined.

Lemma dict_set_same (key : string) (v : value) (d : dict) :
  dict_get key d = Some v -> dict_set key v d = d.
Proof.
  induction d as [|[k w] d IH]; simpl; [discriminate|].
  destruct (String.eqb k key) eqn:E.
  - now intros [= ->].
  - intros H. now rewrite IH.
Qed.

Lemma fold_merge_fixed (items result : dict) :
  (forall k v, In (k, v) items ->
     dict_get k result = Some v /\ merged_entry (Some v) v = v) ->
  fold_left merge_item items result = result.
Proof.
  induction items as [|[k v] rest IH]; intros Hall; [reflexivity|].
  cbn [fold_left].
  assert (E : merge_item result (k, v) = result).
  { destruct (Hall k v) as [Hget Hm]; [now left|].
    unfold merge_item. rewrite Hget. unfold merged_entry in Hm.
    destruct v; try now apply dict_set_same.
    rewrite Hm. now apply dict_set_same. }
  rewrite E. apply IH. intros k' v' Hin. apply Hall. now right.
Qed.

Lemma deep_merge_self_value (v : value) : merges_to_itself v.
Proof.
  induction v using value_ind; simpl; try exact I.
  intros Hwf. apply andb_true_iff in Hwf. destruct Hwf as [Hu Hvals].
  apply unique_NoDup in Hu. rewrite forallb_forall in Hvals.
  rewrite Forall_forall in H.
  rewrite deep_merge_fold. apply fold_merge_fixed.
  intros k v Hin. split; [now apply dict_get_unique|].
  specialize (H (k, v) Hin). specialize (Hvals (k, v) Hin). simpl in H, Hvals.
  unfold merged_entry. destruct v; try reflexivity.
  simpl in H. now rewrite H.
Qed.

(** X3: deep merge is idempotent: merging a well-formed dictionary with
    itself gives that dictionary back, order of keys included. *)
Theorem deep_merge_idempotent (d : dict) :
  wf_value (VDict d) = true -> _deep_merge d d = d.
Proof. exact (deep_merge_self_value (VDict d)). Qed.

Lemma deep_merge_idempotent_witness :
  let d := [("a", VDict [("x", VList [VInt 1]); ("y", VDict [])]);
            ("b", VStr "s")] in
  wf_value (VDict d) = true /\ _deep_merge d d = d.
Proof.
  intros d. split; [reflexivity|].
  apply (deep_merge_idempotent d). reflexivity.
Defined.

Lemma dict_update_fold (result obj : dict) :
  dict_update result obj = fold_left update_item obj result.
Proof. reflexivity. Qed.

Lemma fold_update_get_absent (items : dict) (key : string) :
  ~ In key (keys items) ->
  forall result,
    dict_get key (fold_left update_item items result) = dict_get key result.
Proof.
  induction items as [|[k v] rest IH]; intros Hnin result; [reflexivity|].
  cbn [fold_left]. simpl in Hnin. rewrite IH by tauto.
  apply dict_get_set_other. simpl. intros ->. tauto.
Qed.

Lemma fold_update_get_present (items : dict) (key : string) (v : value) :
  NoDup (keys items) -> In (key, v) items ->
  forall result,
    dict_get key (fold_left update_item items result) = Some v.
Proof.
  induction items as [|[k w] rest IH]; intros Hnd Hin result; [destruct Hin|].
  simpl in Hnd. inversion Hnd as [|? ? Hk Hnd']; subst.
  cbn [fold_left]. destruct Hin as [[= -> ->]|Hin].
  - rewrite fold_update_get_absent by exact Hk. apply dict_get_set_same.
  - now apply IH.
Qed.

Lemma merge_json_dicts_shallow (docs : list dict) :
  merge_json (loaded_dicts docs) false = Ok (fold_left dict_update docs []).
Proof.
  destruct docs as [|d docs]; [reflexivity|].
  unfold merge_json. cbn [loaded_dicts map].
  change (Loaded (VDict d) :: map (fun d0 => Loaded (VDict d0)) docs)
    with (loaded_dicts (d :: docs)).
  rewrite parse_objects_dicts. reflexivity.
Qed.

(** X4: without [deep_merge] the merge is shallow: whatever value the last
    document holds at a key, an object included, is the value of the result
    at that key; it is not merged with what the earlier documents hold. *)
Theorem shallow_merge_last_wins (docs : list dict) (last : dict)
    (key : string) (v : value) :
  unique (keys last) = true -> dict_get key last = Some v ->
  exists merged,
    merge_json (loaded_dicts (docs ++ [last])) false = Ok merged /\
    dict_get key merged = Some v.
Proof.
  intros Hu Hget. exists (fold_left dict_update (docs ++ [last]) []).
  split; [apply merge_json_dicts_shallow|].
  rewrite fold_left_app. cbn [fold_left]. rewrite dict_update_fold.
  apply fold_update_get_present.
  - now apply unique_NoDup.
  - now apply dict_get_Some_In.
Qed.

Lemma shallow_merge_last_wins_witness :
  let docs := [[("a", VDict [("x", VInt 1)])]] in
  let last := [("a", VDict [("y", VInt 2)])] in
  unique (keys last) = true /\
  exists merged,
    merge_json (loaded_dicts (docs ++ [last])) false = Ok merged /\
    dict_get "a" merged = Some (VDict [("y", VInt 2)]).
Proof.
  intros docs last. split; [reflexivity|].
  apply (shallow_merge_last_wins docs last "a" (VDict [("y", VInt 2)]));
    reflexivity.
Defined.

Lemma deep_merge_flat_overlay (base overlay : dict) :
  flat overlay = true -> _deep_merge base overlay = dict_update base overlay.
Proof.
  intros Hflat. rewrite deep_merge_fold, dict_update_fold.
  revert base. induction overlay as [|[k v] rest IH]; intros base;
    [reflexivity|].
  unfold flat in Hflat. simpl in Hflat. apply andb_true_iff in Hflat.
  destruct Hflat as [Hv Hrest]. cbn [fold_left].
  assert (E : merge_item base (k, v) = update_item base (k, v)).
  { unfold merge_item, update_item. simpl.
    destruct v; try discriminate Hv;
      now destruct (dict_get k base) as [[]|]. }
  rewrite E. now apply IH.
Qed.

(** X5: when no document holds an object as a value, the deep merge and the
    shallow merge of the documents are the same. *)
Theorem deep_merge_of_flat_is_shallow (docs : list dict) :
  forallb flat docs = true ->
  merge_json (loaded_dicts docs) true = merge_json (loaded_dicts docs) false.
Proof.
  intros Hflat. rewrite merge_json_dicts, merge_json_dicts_shallow. f_equal.
  generalize (@nil (string * value)).
  induction docs as [|d docs IH]; intros acc; [reflexivity|].
  simpl in Hflat. apply andb_true_iff in Hflat. destruct Hflat as [Hd Hrest].
  cbn [fold_left]. rewrite (deep_merge_flat_overlay acc d Hd).
  now apply IH.
Qed.

Lemma deep_merge_of_flat_is_shallow_witness :
  let docs := [[("a", VInt 1); ("b", VList [VDict []])];
               [("b", VStr "s"); ("c", VNone)]] in
  forallb flat docs = true /\
  merge_json (loaded_dicts docs) true = merge_json (loaded_dicts docs) false.
Proof.
  intros docs. split; [reflexivity|].
  apply (deep_merge_of_flat_is_shallow docs). reflexivity.
Defined.

Lemma parse_objects_ok_iff (json_objects : list loaded) :
  forall i parsed,
    (exists r, parse_objects i json_objects parsed = Ok r)
    <-> forallb loaded_dict json_objects = true.
Proof.
  induction json_objects as [|j rest IH]; intros i parsed.
  - simpl. split; [reflexivity | eauto].
  - destruct j as [data|msg].
    + destruct data; simpl;
        try (split; [intros [r Hr]; discriminate Hr | discriminate]).
      apply IH.
    + simpl. split; [intros [r Hr]; discriminate Hr | discriminate].
Qed.

(** X6: the merge returns a dictionary exactly when every input text parses
    to an object; otherwise it raises. *)
Theorem merge_json_succeeds_iff (json_objects : list loaded)
    (deep_merge : bool) :
  (exists merged, merge_json json_objects deep_merge = Ok merged)
  <-> forallb loaded_dict json_objects = true.
Proof.
  destruct json_objects as [|j rest].
  - simpl. split; [reflexivity | eauto].
  - unfold merge_json.
    rewrite <- (parse_objects_ok_iff (j :: rest) 0 []).
    destruct (parse_objects 0 (j :: rest) []) as [parsed|e]; simpl.
    + split; eauto.
    + split; intros [r Hr]; discriminate Hr.
Qed.

Lemma merge_json_succeeds_iff_witness :
  let json_objects := [Loaded (VDict [("a", VInt 1)]); Loaded (VDict [])] in
  forallb loaded_dict json_objects = true /\
  exists merged, merge_json json_objects true = Ok merged.
Proof.
  intros json_objects. split; [reflexivity|].
  apply (proj2 (merge_json_succeeds_iff json_objects true)). reflexivity.
Defined.

Lemma parse_objects_decode_error (docs : list dict) (msg : string)
    (rest : list loaded) :
  forall i parsed,
    parse_objects i (loaded_dicts docs ++ JSONDecodeError msg :: rest) parsed
    = Raise (ValueError
               ("Invalid JSON in object "
                ++ str_of_nat (i + List.length docs + 1) ++ ": " ++ msg)
               %string).
Proof.
  induction docs as [|d docs IH]; intros i parsed.
  - simpl. now rewrite Nat.add_0_r.
  - simpl. rewrite IH.
    now replace (S i + List.length docs + 1)%nat
      with (i + S (List.length docs) + 1)%nat by lia.
Qed.

(** X7: when the first input that is not an object is a text that does not
    parse, the merge raises "Invalid JSON in object n: ..." with the
    one-based position of that text and the parser's message, whatever
    follows it. *)
Theorem merge_json_decode_error (docs : list dict) (msg : string)
    (rest : list loaded) (deep_merge : bool) :
  merge_json (loaded_dicts docs ++ JSONDecodeError msg :: rest) deep_merge
  = Raise (ValueError
             ("Invalid JSON in object "
              ++ str_of_nat (List.length docs + 1) ++ ": " ++ msg)%string).
Proof.
  unfold merge_json.
  rewrite (parse_objects_decode_error docs msg rest 0 []).
  destruct (loaded_dicts docs ++ JSONDecodeError msg :: rest) eqn:E;
    [|reflexivity].
  destruct docs; discriminate E.
Qed.

(** ** Further properties of the structural differ *)

Lemma all_append (l : list value) : Forall appends l.
Proof. apply Forall_forall. intros x _. apply compare_values_app. Qed.

Lemma all_items_append (items : dict) :
  Forall (fun kv => appends (snd kv)) items.
Proof. apply Forall_forall. intros x _. apply compare_values_app. Qed.

Lemma compare_shared_cons (d2 : dict) (path : string) (io : bool)
    (key : string) (v1 : value) (rest : dict) :
  compare_shared d2 path io ((key, v1) :: rest) []
  = match dict_get key d2 with
    | Some v2 =>
        _compare_values v1 v2 (key_path path key) [] io
          ++ compare_shared d2 path io rest []
    | None => compare_shared d2 path io rest []
    end.
Proof.
  simpl. destruct (dict_get key d2) as [v2|]; [|reflexivity].
  apply compare_shared_app, all_items_append.
Qed.

Lemma compare_pairs_cons (path : string) (io : bool) (i : nat)
    (x y : value) (l1 l2 : list value) :
  compare_pairs path io i (x :: l1) (y :: l2) []
  = _compare_values x y (index_path path i) [] io
      ++ compare_pairs path io (S i) l1 l2 [].
Proof. simpl. apply compare_pairs_app, all_append. Qed.

Lemma compare_dict_parts (d1 d2 : dict) (path : string) (io : bool) :
  _compare_values (VDict d1) (VDict d2) path [] io
  = (map (fun key => key_removed path key d1) (keys_minus (keys d1) (keys d2))
       ++ map (fun key => key_added path key d2)
            (keys_minus (keys d2) (keys d1)))
      ++ compare_shared d2 path io d1 [].
Proof.
  rewrite compare_values_dict.
  rewrite (compare_shared_app d2 path io d1 (all_items_append d1)).
  reflexivity.
Qed.

Lemma keys_minus_In (key : string) (keys1 keys2 : list string) :
  In key (keys_minus keys1 keys2) <-> In key keys1 /\ ~ In key keys2.
Proof.
  unfold keys_minus. rewrite filter_In, negb_true_iff, str_mem_false.
  tauto.
Qed.

Lemma compare_shared_incl (d2 : dict) (path : string) (items : dict) :
  Forall (fun kv => relaxed_included (snd kv)) items ->
  incl (compare_shared d2 path true items [])
       (compare_shared d2 path false items []).
Proof.
  induction 1 as [|[key v1] rest Hv _ IH]; [apply incl_refl|].
  rewrite !compare_shared_cons.
  destruct (dict_get key d2) as [v2|]; [|exact IH].
  apply incl_app; [apply incl_appl, Hv | apply incl_appr, IH].
Qed.

Lemma compare_values_relaxed (v1 : value) : relaxed_included v1.
Proof.
  induction v1 using value_ind; intros v2 path.
  1-5: match goal with
       | |- incl (_compare_values ?a _ _ _ _) _ =>
           destruct v2;
           try (rewrite !(compare_values_mismatch a) by discriminate;
                apply incl_refl);
           rewrite !(compare_values_prim a) by (reflexivity || discriminate);
           apply incl_refl
       end.
  - destruct v2;
      try (rewrite !(compare_values_mismatch (VList elems)) by discriminate;
           apply incl_refl).
    rewrite !compare_values_list. cbv zeta.
    rewrite (compare_pairs_app path false elems (all_append elems)).
    apply incl_appl, incl_refl.
  - destruct v2;
      try (rewrite !(compare_values_mismatch (VDict items)) by discriminate;
           apply incl_refl).
    rewrite !compare_dict_parts.
    apply incl_app; [apply incl_appl, incl_refl|].
    apply incl_appr. now apply compare_shared_incl.
Qed.

(** X8: every difference reported with [ignore_order] set is also
    reported without it: ignoring the order only leaves findings out. *)
Theorem ignore_order_reports_fewer (data1 data2 : value) :
  incl (compare_json data1 data2 true) (compare_json data1 data2 false).
Proof. apply compare_values_relaxed. Qed.

(** X9: a key that only the first object has is reported as "Key removed"
    with the value it had, and a key that only the second object has as
    "Key added" with its value, in both modes and at any depth [path]. *)
Theorem diff_reports_removed_and_added (d1 d2 : dict) (path : string)
    (ignore_order : bool) :
  (forall key v,
      dict_get key d1 = Some v -> dict_get key d2 = None ->
      In (mk_difference "Key removed" (key_path path key) (Some v) None)
         (_compare_values (VDict d1) (VDict d2) path [] ignore_order)) /\
  (forall key v,
      dict_get key d1 = None -> dict_get key d2 = Some v ->
      In (mk_difference "Key added" (key_path path key) None (Some v))
         (_compare_values (VDict d1) (VDict d2) path [] ignore_order)).
Proof.
  split; intros key v H1 H2; rewrite compare_dict_parts;
    apply in_or_app; left; apply in_or_app.
  - left. apply in_map_iff. exists key. split.
    + unfold key_removed. now rewrite H1.
    + apply keys_minus_In. split.
      * apply dict_get_In_keys. eauto.
      * now apply dict_get_None.
  - right. apply in_map_iff. exists key. split.
    + unfold key_added. now rewrite H2.
    + apply keys_minus_In. split.
      * apply dict_get_In_keys. eauto.
      * now apply dict_get_None.
Qed.

Lemma diff_reports_removed_and_added_witness :
  let d1 := [("a", VInt 1); ("b", VInt 2)] in
  let d2 := [("b", VInt 2); ("c", VInt 3)] in
  dict_get "a" d1 = Some (VInt 1) /\ dict_get "a" d2 = None /\
  In (mk_difference "Key removed" (key_path "p" "a") (Some (VInt 1)) None)
     (_compare_values (VDict d1) (VDict d2) "p" [] false).
Proof.
  intros d1 d2. split; [reflexivity|]. split; [reflexivity|].
  apply (proj1 (diff_reports_removed_and_added d1 d2 "p" false));
    reflexivity.
Defined.

Lemma compare_pairs_longer_left (path : string) (io : bool)
    (l extra : list value) :
  (forall x, In x l -> self_equal x) ->
  forall i differences,
    compare_pairs path io i (l ++ extra) l differences = differences.
Proof.
  induction l as [|x l IH]; intros Hall i diffs.
  - simpl. now destruct extra.
  - simpl. rewrite (Hall x) by now left.
    apply IH. intros y Hy. apply Hall. now right.
Qed.

Lemma compare_pairs_longer_right (path : string) (io : bool)
    (l extra : list value) :
  (forall x, In x l -> self_equal x) ->
  forall i differences,
    compare_pairs path io i l (l ++ extra) differences = differences.
Proof.
  induction l as [|x l IH]; intros Hall i diffs; [reflexivity|].
  simpl. rewrite (Hall x) by now left.
  apply IH. intros y Hy. apply Hall. now right.
Qed.

Lemma all_self_equal (l : list value) :
  wf_value (VList l) = true -> nan_free (VList l) = true ->
  forall x, In x l -> self_equal x.
Proof.
  simpl. rewrite !forallb_forall. intros Hwf Hnan x Hx.
  apply compare_values_refl; auto.
Qed.

(** X10: an array compared with the same array extended by further
    elements, on either side, gives exactly one "Array length mismatch"
    entry: the elements past the common length are not compared. *)
Theorem diff_of_extended_array (l extra : list value) (path : string)
    (ignore_order : bool) :
  wf_value (VList l) = true -> nan_free (VList l) = true -> extra <> [] ->
  _compare_values (VList (l ++ extra)) (VList l) path [] ignore_order
  = [length_mismatch path (l ++ extra) l] /\
  _compare_values (VList l) (VList (l ++ extra)) path [] ignore_order
  = [length_mismatch path l (l ++ extra)].
Proof.
  intros Hwf Hnan Hextra.
  pose proof (all_self_equal l Hwf Hnan) as Hall.
  assert (Hlen : List.length (l ++ extra) <> List.length l).
  { rewrite length_app. destruct extra; [congruence | simpl; lia]. }
  split; rewrite compare_values_list; cbv zeta.
  - apply Nat.eqb_neq in Hlen. rewrite Hlen. simpl.
    destruct ignore_order; [reflexivity|].
    now apply compare_pairs_longer_left.
  - assert (Hlen' : List.length l <> List.length (l ++ extra)) by congruence.
    apply Nat.eqb_neq in Hlen'. rewrite Hlen'. simpl.
    destruct ignore_order; [reflexivity|].
    now apply compare_pairs_longer_right.
Qed.

Lemma diff_of_extended_array_witness :
  let l := [VInt 1; VDict [("a", VStr "s")]] in
  let extra := [VDict [("b", VNone)]] in
  wf_value (VList l) = true /\ nan_free (VList l) = true /\ extra <> [] /\
  _compare_values (VList (l ++ extra)) (VList l) "xs" [] false
  = [length_mismatch "xs" (l ++ extra) l].
Proof.
  intros l extra.
  assert (Hextra : extra <> []) by discriminate.
  split; [reflexivity|]. split; [reflexivity|]. split; [exact Hextra|].
  exact (proj1 (diff_of_extended_array l extra "xs" false
                  eq_refl eq_refl Hextra)).
Defined.

Lemma keys_minus_nil_iff (keys1 keys2 : list string) :
  keys_minus keys1 keys2 = [] <-> (forall k, In k keys1 -> In k keys2).
Proof.
  split.
  - intros E k Hk. destruct (str_mem k keys2) eqn:Em.
    + now apply str_mem_In.
    + exfalso. apply str_mem_false in Em.
      assert (Hin : In k (keys_minus keys1 keys2))
        by now apply keys_minus_In.
      rewrite E in Hin. destruct Hin.
  - intros Hsub. destruct (keys_minus keys1 keys2) as [|k rest] eqn:E;
      [reflexivity|].
    assert (Hin : In k (keys_minus keys1 keys2)) by (rewrite E; now left).
    apply keys_minus_In in Hin. destruct Hin as [H1 H2].
    exfalso. apply H2, Hsub, H1.
Qed.

Lemma same_keys_from_minus (d1 d2 : dict) :
  keys_minus (keys d1) (keys d2) = [] ->
  keys_minus (keys d2) (keys d1) = [] ->
  forall key, dict_get key d1 = None <-> dict_get key d2 = None.
Proof.
  intros E1 E2 key. rewrite !dict_get_None.
  rewrite keys_minus_nil_iff in E1, E2.
  split; intros Hn Hin; apply Hn; auto.
Qed.

Lemma same_keys_to_minus (d1 d2 : dict) :
  (forall key, dict_get key d1 = None <-> dict_get key d2 = None) ->
  keys_minus (keys d1) (keys d2) = [] /\ keys_minus (keys d2) (keys d1) = [].
Proof.
  intros Hsame. split; apply keys_minus_nil_iff; intros k Hk.
  - destruct (dict_get k d2) as [y|] eqn:E2;
      [apply dict_get_In_keys; eauto|].
    apply Hsame, dict_get_None in E2. contradiction.
  - destruct (dict_get k d1) as [x|] eqn:E1;
      [apply dict_get_In_keys; eauto|].
    apply Hsame, dict_get_None in E1. contradiction.
Qed.

Lemma compare_shared_empty (d2 : dict) (path : string) (items : dict) :
  Forall (fun kv => empty_diff_sound (snd kv)) items ->
  compare_shared d2 path false items [] = [] ->
  forall k x y,
    In (k, x) items -> dict_get k d2 = Some y -> same_document x y.
Proof.
  induction 1 as [|[key v1] rest Hv _ IH]; intros E k x y Hin Hget;
    [destruct Hin|].
  rewrite compare_shared_cons in E.
  destruct Hin as [[= -> ->]|Hin].
  - rewrite Hget in E. apply app_eq_nil in E. destruct E as [E _].
    exact (Hv y _ E).
  - destruct (dict_get key d2); [apply app_eq_nil in E; destruct E as [_ E]|];
      exact (IH E k x y Hin Hget).
Qed.

Lemma compare_pairs_empty (path : string) (l1 : list value) :
  Forall empty_diff_sound l1 ->
  forall l2 i,
    List.length l1 = List.length l2 ->
    compare_pairs path false i l1 l2 [] = [] ->
    Forall2 same_document l1 l2.
Proof.
  induction 1 as [|x l1 Hx _ IH]; intros l2 i Hlen E;
    destruct l2 as [|y l2]; try discriminate Hlen; [constructor|].
  rewrite compare_pairs_cons in E. apply app_eq_nil in E.
  destruct E as [Ex El]. constructor.
  - exact (Hx y _ Ex).
  - apply (IH l2 (S i)); [now injection Hlen | exact El].
Qed.

Lemma compare_values_sound (v1 : value) : empty_diff_sound v1.
Proof.
  induction v1 using value_ind; intros v2 path E.
  1-5: match type of E with
       | _compare_values ?a _ _ _ _ = _ =>
           destruct v2;
           try (rewrite (compare_values_mismatch a) in E by discriminate;
                discriminate E);
           rewrite (compare_values_prim a) in E
             by (reflexivity || discriminate);
           simpl in E
       end.
  - constructor.
  - destruct (Bool.eqb b b0) eqn:Eb; [|discriminate E].
    apply Bool.eqb_prop in Eb. subst. constructor.
  - destruct (Z.eqb n n0) eqn:En; [|discriminate E].
    apply Z.eqb_eq in En. subst. constructor.
  - destruct (SFeqb f f0) eqn:Ef; [|discriminate E]. now constructor.
  - destruct (String.eqb s s0) eqn:Es; [|discriminate E].
    apply String.eqb_eq in Es. subst. constructor.
  - destruct v2;
      try (rewrite (compare_values_mismatch (VList elems)) in E
             by discriminate; discriminate E).
    rewrite compare_values_list in E. cbv zeta in E.
    rewrite (compare_pairs_app path false elems (all_append elems)) in E.
    apply app_eq_nil in E. destruct E as [Elen Epairs].
    destruct (Nat.eqb (List.length elems) (List.length elems0)) eqn:En;
      [|discriminate Elen].
    apply Nat.eqb_eq in En. constructor.
    exact (compare_pairs_empty path elems H elems0 0 En Epairs).
  - destruct v2;
      try (rewrite (compare_values_mismatch (VDict items)) in E
             by discriminate; discriminate E).
    rewrite compare_dict_parts in E.
    apply app_eq_nil in E. destruct E as [Ekeys Eshared].
    apply app_eq_nil in Ekeys. destruct Ekeys as [Erem Eadd].
    apply map_eq_nil in Erem, Eadd. constructor.
    + now apply same_keys_from_minus.
    + intros key x y Hx Hy. apply dict_get_Some_In in Hx.
      exact (compare_shared_empty items0 path items H Eshared key x y Hx Hy).
Qed.

Lemma compare_shared_same (d2 : dict) (path : string) (io : bool)
    (items : dict) :
  (forall k x, In (k, x) items ->
     exists y, dict_get k d2 = Some y /\
               forall p differences,
                 _compare_values x y p differences io = differences) ->
  forall differences,
    compare_shared d2 path io items differences = differences.
Proof.
  induction items as [|[k x] rest IH]; intros Hall diffs; [reflexivity|].
  simpl. destruct (Hall k x) as [y [-> Hy]]; [now left|].
  rewrite Hy. apply IH. intros k' x' Hin. apply Hall. now right.
Qed.

Lemma compare_pairs_same (path : string) (io : bool) (l1 l2 : list value) :
  Forall2 (fun x y => forall p differences,
             _compare_values x y p differences io = differences) l1 l2 ->
  forall i differences,
    compare_pairs path io i l1 l2 differences = differences.
Proof.
  induction 1 as [|x y l1 l2 Hxy _ IH]; intros i diffs; [reflexivity|].
  simpl. rewrite Hxy. apply IH.
Qed.

Lemma compare_values_complete (v1 : value) : empty_diff_complete v1.
Proof.
  induction v1 using value_ind; intros v2 path diffs io Hwf Hsame;
    inversion Hsame; subst.
  1-5: match goal with
       | |- _compare_values ?a _ _ _ _ = _ =>
           rewrite (compare_values_prim a) by (reflexivity || discriminate)
       end; simpl.
  - reflexivity.
  - now rewrite Bool.eqb_reflx.
  - now rewrite Z.eqb_refl.
  - match goal with Hf : SFeqb _ _ = true |- _ => now rewrite Hf end.
  - now rewrite String.eqb_refl.
  - match goal with Hf : Forall2 same_document _ _ |- _ => rename Hf into HF
    end.
    rewrite compare_values_list. cbv zeta.
    rewrite (Forall2_length HF), Nat.eqb_refl. simpl.
    destruct io; [reflexivity|].
    apply compare_pairs_same.
    simpl in Hwf. rewrite forallb_forall in Hwf. rewrite Forall_forall in H.
    clear Hsame. induction HF as [|x y l1 l2 Hxy HF IH]; constructor.
    + intros p d. apply (H x); [now left | apply Hwf; now left | exact Hxy].
    + apply IH; intros z Hz; [apply H | apply Hwf]; now right.
  - match goal with
    | Hk : forall key, dict_get key _ = None <-> dict_get key _ = None |- _ =>
        rename Hk into Hkeys
    end.
    match goal with
    | Hv : forall key x y, _ -> _ -> same_document x y |- _ =>
        rename Hv into Hvals
    end.
    rewrite compare_values_dict.
    destruct (same_keys_to_minus items d2 Hkeys) as [-> ->].
    simpl. rewrite !app_nil_r.
    simpl in Hwf. apply andb_true_iff in Hwf. destruct Hwf as [Hu Hwf].
    apply unique_NoDup in Hu. rewrite forallb_forall in Hwf.
    rewrite Forall_forall in H.
    apply compare_shared_same. intros k x Hin.
    pose proof (dict_get_unique k x items Hu Hin) as Hget.
    destruct (dict_get k d2) as [y|] eqn:E2.
    + exists y. split; [reflexivity|]. intros p d.
      apply (H (k, x) Hin); [apply (Hwf (k, x) Hin) |].
      exact (Hvals k x y Hget E2).
    + apply Hkeys in E2. congruence.
Qed.

(** X11: the order-dependent comparison finds nothing exactly when the two
    documents are the same: same types, equal primitive values, arrays the
    same element by element, objects with the same keys and the same values
    under them in any key order.  Same documents also compare as empty when
    the order is ignored. *)
Theorem empty_diff_iff_same_document (data1 data2 : value) :
  wf_value data1 = true ->
  (compare_json data1 data2 false = [] <-> same_document data1 data2) /\
  (same_document data1 data2 -> compare_json data1 data2 true = []).
Proof.
  intros Hwf. split; [split|].
  - apply compare_values_sound.
  - intros Hsame. now apply compare_values_complete.
  - intros Hsame. now apply compare_values_complete.
Qed.

Lemma empty_diff_iff_same_document_witness :
  let data1 := VDict [("a", VInt 1); ("b", VList [VFloat float_one])] in
  let data2 := VDict [("b", VList [VFloat float_one]); ("a", VInt 1)] in
  wf_value data1 = true /\ compare_json data1 data2 false = [] /\
  same_document data1 data2.
Proof.
  intros data1 data2. split; [reflexivity|]. split; [reflexivity|].
  apply (proj1 (proj1 (empty_diff_iff_same_document data1 data2 eq_refl))).
  reflexivity.
Defined.

(** ** Further properties of the path extractor *)

Lemma split_on_not_nil (sep : ascii) (s : string) : split_on sep s <> [].
Proof.
  destruct s as [|a s]; simpl; [discriminate|].
  destruct (Ascii.eqb a sep); [discriminate|].
  destruct (split_on sep s); discriminate.
Qed.

Lemma split_on_app (sep : ascii) (s t : string) :
  split_on sep (s ++ String sep t)%string = split_on sep s ++ split_on sep t.
Proof.
  induction s as [|a s IH]; simpl.
  - now rewrite Ascii.eqb_refl.
  - destruct (Ascii.eqb a sep); rewrite IH; [reflexivity|].
    destruct (split_on sep s) as [|p ps] eqn:E; [|reflexivity].
    now apply split_on_not_nil in E.
Qed.

Lemma extract_prefixed (d : value) (p : string) :
  extract_json_path d ("$." ++ p) = extract_parts p (split_on "." p) d.
Proof.
  unfold extract_json_path.
  assert (Ep : String.prefix "$." ("$." ++ p) = true)
    by (destruct p; reflexivity).
  now rewrite Ep.
Qed.

Lemma extract_part_not_none (path : string) (current : value)
    (part : string) (v : value) :
  extract_part path current part = Ok v -> v <> VNone.
Proof.
  unfold extract_part.
  match goal with
  | |- bind ?r _ = _ -> _ => destruct r as [c|e]
  end; simpl; [|discriminate].
  destruct c; intros [= <-]; discriminate.
Qed.

Lemma extract_parts_not_none (path : string) (parts : list string) :
  parts <> [] ->
  forall current v,
    extract_parts path parts current = Ok v -> v <> VNone.
Proof.
  induction parts as [|part rest IH]; intros Hne current v; [congruence|].
  simpl. destruct (extract_part path current part) as [c|e] eqn:E;
    simpl; [|discriminate].
  destruct rest as [|part' rest].
  - simpl. intros [= <-]. exact (extract_part_not_none _ _ _ _ E).
  - apply IH. discriminate.
Qed.

(** X12: the extractor never returns null: whatever the document and the
    path, a returned value is not [None]. *)
Theorem extract_never_returns_null (data : value) (path : string)
    (v : value) :
  extract_json_path data path = Ok v -> v <> VNone.
Proof.
  unfold extract_json_path. apply extract_parts_not_none, split_on_not_nil.
Qed.

Lemma extract_never_returns_null_witness :
  extract_json_path (VDict [("a", VList [VNone; VInt 1])]) "a[1]"
  = Ok (VInt 1) /\ VInt 1 <> VNone.
Proof.
  split; [reflexivity|].
  apply (extract_never_returns_null
           (VDict [("a", VList [VNone; VInt 1])]) "a[1]").
  reflexivity.
Defined.

Lemma extract_part_ok_any_path (path path' : string) (current : value)
    (part : string) (v : value) :
  extract_part path current part = Ok v ->
  extract_part path' current part = Ok v.
Proof.
  unfold extract_part.
  match goal with
  | |- bind ?r _ = _ -> _ => destruct r as [c|e]
  end; simpl; [|discriminate].
  destruct c; intros H; try exact H; discriminate H.
Qed.

Lemma extract_part_raise_any_path (path path' : string) (current : value)
    (part : string) (e : exn) :
  extract_part path current part = Raise e ->
  exists e', extract_part path' current part = Raise e'.
Proof.
  unfold extract_part.
  match goal with
  | |- bind ?r _ = _ -> _ => destruct r as [c|e0]
  end; simpl; [|eauto].
  destruct c; intros H; try discriminate H; eauto.
Qed.

Lemma extract_parts_app (path : string) (parts parts' : list string)
    (current : value) :
  extract_parts path (parts ++ parts') current
  = (v <- extract_parts path parts current ;; extract_parts path parts' v).
Proof.
  revert current. induction parts as [|part rest IH]; intros current;
    [reflexivity|].
  simpl. destruct (extract_part path current part) as [c|e]; simpl;
    [apply IH | reflexivity].
Qed.

Lemma extract_parts_ok_any_path (path path' : string)
    (parts : list string) :
  forall current v,
    extract_parts path parts current = Ok v ->
    extract_parts path' parts current = Ok v.
Proof.
  induction parts as [|part rest IH]; intros current v; [trivial|].
  simpl. destruct (extract_part path current part) as [c|e] eqn:E;
    simpl; [|discriminate].
  rewrite (extract_part_ok_any_path path path' _ _ _ E). simpl. apply IH.
Qed.

Lemma extract_parts_raise_any_path (path path' : string)
    (parts : list string) :
  forall current e,
    extract_parts path parts current = Raise e ->
    exists e', extract_parts path' parts current = Raise e'.
Proof.
  induction parts as [|part rest IH]; intros current e; [discriminate|].
  simpl. destruct (extract_part path current part) as [c|e0] eqn:E; simpl.
  - rewrite (extract_part_ok_any_path path path' _ _ _ E). simpl. apply IH.
  - intros _.
    destruct (extract_part_raise_any_path path path' _ _ _ E) as [e' ->].
    simpl. eauto.
Qed.

(** X13: paths compose.  When the path p leads from a document to a value
    and the path q leads from that value to a second one, the path p.q
    leads from the document to the second value; and when p fails on the
    document, p.q fails on it as well. *)
Theorem extract_composes (data : value) (p q : string) :
  (forall v w,
      extract_json_path data ("$." ++ p) = Ok v ->
      extract_json_path v ("$." ++ q) = Ok w ->
      extract_json_path data ("$." ++ p ++ "." ++ q) = Ok w) /\
  (forall e,
      extract_json_path data ("$." ++ p) = Raise e ->
      exists e', extract_json_path data ("$." ++ p ++ "." ++ q) = Raise e').
Proof.
  rewrite !extract_prefixed.
  change (p ++ "." ++ q)%string with (p ++ String "." q)%string.
  rewrite split_on_app, extract_parts_app.
  split.
  - intros v w Hp Hq. rewrite extract_prefixed in Hq.
    rewrite (extract_parts_ok_any_path p _ _ _ _ Hp). simpl.
    exact (extract_parts_ok_any_path q _ _ _ _ Hq).
  - intros e Hp.
    destruct (extract_parts_raise_any_path p (p ++ String "." q)%string
                _ _ _ Hp) as [e' ->].
    simpl. eauto.
Qed.

Lemma extract_composes_witness :
  let data := VDict [("users", VList [VDict [("name", VStr "Alice")]])] in
  extract_json_path data ("$." ++ "users[0]")
  = Ok (VDict [("name", VStr "Alice")]) /\
  extract_json_path (VDict [("name", VStr "Alice")]) ("$." ++ "name")
  = Ok (VStr "Alice") /\
  extract_json_path data ("$." ++ "users[0]" ++ "." ++ "name")
  = Ok (VStr "Alice").
Proof.
  intros data. split; [reflexivity|]. split; [reflexivity|].
  apply (proj1 (extract_composes data "users[0]" "name")
           (VDict [("name", VStr "Alice")]) (VStr "Alice")); reflexivity.
Defined.

Lemma str_of_nat_not_empty (n : nat) : str_of_nat n <> EmptyString.
Proof.
  unfold str_of_nat. intros E.
  pose proof (NilEmpty.usu (Nat.to_uint n)) as Hu. rewrite E in Hu.
  simpl in Hu. injection Hu as Hu. symmetry in Hu.
  exact (to_uint_not_nil n Hu).
Qed.

Lemma py_int_negative (n : nat) :
  py_int (String "-" (str_of_nat n)) = Some (- Z.of_nat n)%Z.
Proof.
  pose proof (py_int_str_of_nat n) as Hpos.
  pose proof (str_of_nat_digits n) as Hd.
  pose proof (str_of_nat_not_empty n) as Hne.
  unfold py_int in *.
  rewrite lstrip_space_digits, rstrip_space_digits in Hpos by exact Hd.
  cbn [lstrip_space]. change (is_space "-") with false. cbv iota.
  cbn [rstrip_space]. rewrite rstrip_space_digits by exact Hd.
  destruct (str_of_nat n) as [|a s] eqn:E; [congruence|].
  assert (Hp : parse_digits (String a s) 0 false = Some (Z.of_nat n)).
  { simpl in Hd. apply andb_true_iff in Hd. destruct Hd as [Ha _].
    destruct a as [[|] [|] [|] [|] [|] [|] [|] [|]];
      try discriminate Ha; exact Hpos. }
  cbv iota. now rewrite Hp.
Qed.

Lemma seq_index_negative (k len : nat) :
  (0 < k)%nat -> (k <= len)%nat ->
  seq_index (- Z.of_nat k) len = Some (len - k)%nat.
Proof.
  intros Hk Hle. unfold seq_index.
  destruct (Z.ltb_spec (- Z.of_nat k) 0) as [_|Hge]; [|lia].
  destruct (Z.leb_spec 0 (- Z.of_nat k + Z.of_nat len)) as [_|Hneg]; [|lia].
  destruct (Z.ltb_spec (- Z.of_nat k + Z.of_nat len) (Z.of_nat len))
    as [_|Hge]; [|lia].
  simpl. f_equal. lia.
Qed.

Lemma negative_bracket_part (k : nat) :
  let part := ("[-" ++ str_of_nat k ++ "]")%string in
  String.prefix "$." part = false /\
  split_on "." part = [part] /\
  contains "[" part && contains "]" part = true /\
  split_on "[" part = [EmptyString; ("-" ++ str_of_nat k ++ "]")%string] /\
  py_int (rstrip "]" ("-" ++ str_of_nat k ++ "]")%string)
  = Some (- Z.of_nat k)%Z.
Proof.
  intros part. unfold part.
  pose proof (str_of_nat_digits k) as Hd.
  split; [reflexivity|]. split; [|split; [|split]].
  - apply split_on_no_sep. simpl. rewrite contains_app.
    now rewrite str_of_nat_no.
  - simpl. rewrite contains_app. simpl. now rewrite orb_true_r.
  - simpl. rewrite split_on_no_sep; [reflexivity|].
    rewrite contains_app. now rewrite str_of_nat_no.
  - change ("-" ++ str_of_nat k ++ "]")%string
      with (String "-" (str_of_nat k ++ "]"))%string.
    cbn [rstrip]. rewrite rstrip_snoc.
    rewrite rstrip_digits by (reflexivity || exact Hd).
    pose proof (str_of_nat_not_empty k) as Hne.
    destruct (str_of_nat k) as [|a s] eqn:E; [congruence|].
    rewrite <- E. apply py_int_negative.
Qed.

(** X14: a negative index counts from the end of an array: for an array of
    n elements and 0 < k <= n, the path [-k] selects the element at
    position n - k (and reports "Path not found" when that element is
    null). *)
Theorem extract_negative_index (elems : list value) (k : nat) (v : value) :
  (0 < k)%nat -> (k <= List.length elems)%nat ->
  nth_error elems (List.length elems - k) = Some v ->
  extract_json_path (VList elems) ("[-" ++ str_of_nat k ++ "]")
  = found ("[-" ++ str_of_nat k ++ "]") v.
Proof.
  intros Hk Hle Hnth.
  destruct (negative_bracket_part k) as [Hp [Hs [Hc [Hb Hi]]]].
  unfold extract_json_path. rewrite Hp, Hs. cbn [extract_parts].
  unfold extract_part. rewrite Hc, Hb, Hi. cbn [String.eqb bind].
  cbn [getitem_int]. rewrite (seq_index_negative k _ Hk Hle), Hnth.
  cbn [bind]. unfold found. now destruct v.
Qed.

Lemma extract_negative_index_witness :
  let elems := [VInt 10; VInt 20; VInt 30] in
  (0 < 1)%nat /\ (1 <= List.length elems)%nat /\
  extract_json_path (VList elems) "[-1]" = Ok (VInt 30).
Proof.
  intros elems. split; [lia|]. split; [simpl; lia|].
  apply (extract_negative_index elems 1 (VInt 30)); [lia | simpl; lia |].
  reflexivity.
Defined.

Lemma split_on_parts_without (c sep : ascii) (s : string) :
  contains c s = false ->
  forall part, In part (split_on sep s) -> contains c part = false.
Proof.
  induction s as [|a s IH]; simpl.
  - intros _ part [<-|[]]. reflexivity.
  - intros H. apply orb_false_iff in H. destruct H as [Ha Hs].
    specialize (IH Hs).
    destruct (Ascii.eqb a sep).
    + intros part [<-|Hin]; [reflexivity | now apply IH].
    + destruct (split_on sep s) as [|p ps]; intros part [<-|Hin].
      * simpl. now rewrite Ha.
      * destruct Hin.
      * simpl. rewrite Ha. apply IH. now left.
      * apply IH. now right.
Qed.

Lemma first_part_plain (p : string) :
  contains "[" p = false ->
  exists part rest,
    split_on "." p = part :: rest /\ contains "[" part = false.
Proof.
  intros Hp. destruct (split_on "." p) as [|part rest] eqn:E.
  - now apply split_on_not_nil in E.
  - exists part, rest. split; [reflexivity|].
    apply (split_on_parts_without "[" "." p Hp). rewrite E. now left.
Qed.

(** X15: on a document that is not an object, a path without brackets
    raises "Cannot access '<first part>' on non-object", whatever follows
    the first part. *)
Theorem extract_from_non_object (data : value) (path : string) :
  type_of data <> TDict -> contains "[" path = false ->
  String.prefix "$." path = false ->
  extract_json_path data path
  = Raise (ValueError
             ("Cannot access '" ++ hd EmptyString (split_on "." path)
              ++ "' on non-object")%string).
Proof.
  intros Ht Hb Hp. unfold extract_json_path. rewrite Hp.
  destruct (first_part_plain path Hb) as [part [rest [-> Hpart]]].
  cbn [extract_parts hd].
  assert (Hplain : contains "[" part && contains "]" part = false)
    by now rewrite Hpart.
  rewrite (proj2 (extract_part_plain path data part Hplain) Ht).
  reflexivity.
Qed.

Lemma extract_from_non_object_witness :
  type_of (VList [VInt 1]) <> TDict /\
  extract_json_path (VList [VInt 1]) "items.name"
  = Raise (ValueError "Cannot access 'items' on non-object").
Proof.
  split; [discriminate|].
  apply (extract_from_non_object (VList [VInt 1]) "items.name");
    [discriminate | reflexivity | reflexivity].
Defined.

(** X16: when the first part of a path without brackets is not a key of
    the object, the extractor raises "Path not found" with the whole path,
    whatever follows the first part. *)
Theorem extract_missing_first_key (d : dict) (path : string) :
  contains "[" path = false -> String.prefix "$." path = false ->
  dict_get (hd EmptyString (split_on "." path)) d = None ->
  extract_json_path (VDict d) path
  = Raise (ValueError ("Path not found: " ++ path)%string).
Proof.
  intros Hb Hp. unfold extract_json_path. rewrite Hp.
  destruct (first_part_plain path Hb) as [part [rest [-> Hpart]]].
  cbn [extract_parts hd]. intros Hget.
  assert (Hplain : contains "[" part && contains "]" part = false)
    by now rewrite Hpart.
  rewrite (proj1 (extract_part_plain path (VDict d) part Hplain)
             d eq_refl Hget).
  reflexivity.
Qed.

Lemma extract_missing_first_key_witness :
  dict_get "b" [("a", VInt 1)] = None /\
  extract_json_path (VDict [("a", VInt 1)]) "b.c"
  = Raise (ValueError "Path not found: b.c").
Proof.
  split; [reflexivity|].
  apply (extract_missing_first_key [("a", VInt 1)] "b.c"); reflexivity.
Defined.

Lemma string_app_assoc (s t u : string) :
  ((s ++ t) ++ u)%string = (s ++ t ++ u)%string.
Proof. induction s as [|a s IH]; simpl; [reflexivity | now rewrite IH]. Qed.

Lemma no_dollar_prefix (name rest : string) :
  contains "." name = false ->
  String.prefix "$." (name ++ String "[" rest) = false.
Proof.
  intros Hn. destruct name as [|a name]; [reflexivity|].
  cbn [String.prefix String.append].
  destruct (ascii_dec "$" a) as [_|_]; [|reflexivity].
  destruct name as [|b name]; [reflexivity|].
  cbn [String.prefix String.append].
  destruct (ascii_dec "." b) as [<-|_]; [|reflexivity].
  simpl in Hn. rewrite orb_true_r in Hn. discriminate Hn.
Qed.

(** X17: two bracketed indexes in one part, as in name[i][j], are never
    followed: the extractor raises the error of the failed unpacking for
    every document. *)
Theorem extract_chained_index_fails (data : value) (name : string)
    (i j : nat) :
  contains "." name = false -> contains "[" name = false ->
  extract_json_path data
    (name ++ "[" ++ str_of_nat i ++ "][" ++ str_of_nat j ++ "]")
  = Raise UnpackError.
Proof.
  intros Hd Hb.
  pose (tail := (str_of_nat j ++ "]")%string).
  pose (mid := (str_of_nat i ++ "]")%string).
  assert (Etxt : (name ++ "[" ++ str_of_nat i ++ "][" ++ str_of_nat j ++ "]")
                 %string
                 = (name ++ String "[" (mid ++ String "[" tail))%string).
  { unfold mid, tail. f_equal. simpl. f_equal.
    now rewrite string_app_assoc. }
  rewrite Etxt.
  assert (Hmid : forall c, is_digit c = false -> Ascii.eqb "]" c = false ->
                   contains c mid = false).
  { intros c Hc Hc'. unfold mid. rewrite contains_app, str_of_nat_no by
      exact Hc. cbn [contains orb]. now rewrite Hc'. }
  assert (Htail : forall c, is_digit c = false -> Ascii.eqb "]" c = false ->
                    contains c tail = false).
  { intros c Hc Hc'. unfold tail. rewrite contains_app, str_of_nat_no by
      exact Hc. cbn [contains orb]. now rewrite Hc'. }
  unfold extract_json_path. rewrite (no_dollar_prefix name _ Hd).
  rewrite split_on_no_sep.
  2:{ rewrite contains_app, Hd. simpl. rewrite contains_app.
      rewrite (Hmid "."%char) by reflexivity. simpl.
      now rewrite (Htail "."%char). }
  cbn [extract_parts]. unfold extract_part.
  assert (Hc : contains "[" (name ++ String "[" (mid ++ String "[" tail))
               && contains "]" (name ++ String "[" (mid ++ String "[" tail))
               = true).
  { assert (Hm : contains "]" mid = true).
    { unfold mid. rewrite contains_app. cbn [contains].
      rewrite Ascii.eqb_refl. apply orb_true_r. }
    rewrite !contains_app. cbn [contains]. rewrite !contains_app, Hm.
    rewrite Ascii.eqb_refl. cbn [orb]. rewrite !orb_true_r. reflexivity. }
  rewrite Hc, split_on_app_sep by exact Hb.
  rewrite split_on_app_sep by (now apply Hmid).
  rewrite split_on_no_sep by (now apply Htail).
  reflexivity.
Qed.

Lemma extract_chained_index_fails_witness :
  contains "." "m" = false /\ contains "[" "m" = false /\
  extract_json_path (VDict [("m", VList [VList [VInt 1]])]) "m[0][0]"
  = Raise UnpackError.
Proof.
  split; [reflexivity|]. split; [reflexivity|].
  apply (extract_chained_index_fails
           (VDict [("m", VList [VList [VInt 1]])]) "m" 0 0); reflexivity.
Defined.

(** ** Paths of the reported differences, and merged documents *)

Lemma string_app_nil_r (s : string) : (s ++ "")%string = s.
Proof. induction s as [|a s IH]; simpl; [reflexivity | now rewrite IH]. Qed.

Lemma under_path_or_root (path t : string) (o n : option value) :
  under path (mk_difference t (path_or_root path) o n).
Proof.
  unfold under, path_or_root. simpl.
  destruct (String.eqb_spec path "") as [->|_].
  - now exists "root".
  - exists "". now rewrite string_app_nil_r.
Qed.

Lemma key_path_under (path key : string) :
  exists suffix, key_path path key = (path ++ suffix)%string.
Proof.
  unfold key_path. destruct (String.eqb_spec path "") as [->|_].
  - now exists key.
  - now exists ("." ++ key)%string.
Qed.

Lemma index_path_under (path : string) (i : nat) :
  exists suffix, index_path path i = (path ++ suffix)%string.
Proof.
  unfold index_path. destruct (String.eqb_spec path "") as [->|_].
  - now exists ("[" ++ str_of_nat i ++ "]")%string.
  - now exists ("[" ++ str_of_nat i ++ "]")%string.
Qed.

Lemma under_longer (path suffix : string) (l : list difference) :
  Forall (under (path ++ suffix)) l -> Forall (under path) l.
Proof.
  apply Forall_impl. intros e [s Hs]. exists (suffix ++ s)%string.
  now rewrite Hs, string_app_assoc.
Qed.

Lemma compare_shared_under (d2 : dict) (path : string) (io : bool)
    (items : dict) :
  Forall (fun kv => emits_under (snd kv)) items ->
  Forall (under path) (compare_shared d2 path io items []).
Proof.
  induction 1 as [|[key v1] rest Hv _ IH]; [constructor|].
  rewrite compare_shared_cons.
  destruct (dict_get key d2) as [v2|]; [|exact IH].
  apply Forall_app. split; [|exact IH].
  destruct (key_path_under path key) as [suffix ->].
  apply (under_longer path suffix). apply Hv.
Qed.

Lemma compare_pairs_under (path : string) (io : bool) (l1 : list value) :
  Forall emits_under l1 ->
  forall l2 i, Forall (under path) (compare_pairs path io i l1 l2 []).
Proof.
  induction 1 as [|x l1 Hx _ IH]; intros l2 i; [constructor|].
  destruct l2 as [|y l2]; [constructor|].
  rewrite compare_pairs_cons. apply Forall_app. split; [|apply IH].
  destruct (index_path_under path i) as [suffix ->].
  apply (under_longer path suffix). apply Hx.
Qed.

Lemma compare_values_under (v1 : value) : emits_under v1.
Proof.
  induction v1 using value_ind; intros v2 path io.
  1-5: match goal with
       | |- Forall _ (_compare_values ?a _ _ _ _) =>
           destruct v2;
           try (rewrite (compare_values_mismatch a) by discriminate;
                repeat constructor; apply under_path_or_root);
           rewrite (compare_values_prim a) by (reflexivity || discriminate);
           destruct (prim_ne _ _); repeat constructor;
           apply under_path_or_root
       end.
  - destruct v2;
      try (rewrite (compare_values_mismatch (VList elems)) by discriminate;
           repeat constructor; apply under_path_or_root).
    rewrite compare_values_list. cbv zeta.
    assert (Hd : Forall (under path)
                   (if negb (Nat.eqb (List.length elems) (List.length elems0))
                    then [] ++ [length_mismatch path elems elems0] else [])).
    { destruct (negb _); repeat constructor. apply under_path_or_root. }
    destruct io; [exact Hd|].
    rewrite (compare_pairs_app path false elems (all_append elems)).
    apply Forall_app. split; [exact Hd | now apply compare_pairs_under].
  - destruct v2;
      try (rewrite (compare_values_mismatch (VDict items)) by discriminate;
           repeat constructor; apply under_path_or_root).
    rewrite compare_dict_parts.
    apply Forall_app. split; [|now apply compare_shared_under].
    apply Forall_app; split; apply Forall_forall; intros e He;
      apply in_map_iff in He; destruct He as [k [<- _]];
      apply key_path_under.
Qed.

(** X18: every difference found when two values are compared at a path is
    reported at that path or below it: the path of the entry is the path
    of the comparison followed by the keys and indexes walked through. *)
Theorem differences_lie_under_path (val1 val2 : value) (path : string)
    (ignore_order : bool) (e : difference) :
  In e (_compare_values val1 val2 path [] ignore_order) ->
  exists suffix, diff_path e = (path ++ suffix)%string.
Proof.
  intros Hin.
  pose proof (compare_values_under val1 val2 path ignore_order) as H.
  rewrite Forall_forall in H. exact (H e Hin).
Qed.

Lemma differences_lie_under_path_witness :
  let val1 := VDict [("b", VList [VInt 1; VInt 2])] in
  let val2 := VDict [("b", VList [VInt 1; VInt 3])] in
  let e := mk_difference "Value changed" "a.b[1]"
             (Some (VInt 2)) (Some (VInt 3)) in
  In e (_compare_values val1 val2 "a" [] false) /\
  exists suffix, diff_path e = ("a" ++ suffix)%string.
Proof.
  intros val1 val2 e.
  assert (Hin : In e (_compare_values val1 val2 "a" [] false))
    by (left; reflexivity).
  split; [exact Hin|].
  exact (differences_lie_under_path val1 val2 "a" false e Hin).
Defined.

Lemma dict_update_wf (base overlay : dict) :
  wf_value (VDict base) = true ->
  forallb (fun kv => wf_value (snd kv)) overlay = true ->
  wf_value (VDict (dict_update base overlay)) = true.
Proof.
  rewrite dict_update_fold. revert base.
  induction overlay as [|[k v] rest IH]; intros base Hb Ho; [exact Hb|].
  simpl in Ho. apply andb_true_iff in Ho. destruct Ho as [Hv Hrest].
  cbn [fold_left]. apply IH; [|exact Hrest].
  simpl in Hb. apply andb_true_iff in Hb. destruct Hb as [Hu Hvals].
  unfold update_item. simpl. apply andb_true_iff. split.
  - apply unique_NoDup. fold (keys (dict_set k v base)).
    rewrite keys_dict_set. apply unique_NoDup in Hu. fold (keys base) in Hu.
    destruct (str_mem k (keys base)) eqn:E; [exact Hu|].
    apply str_mem_false in E.
    apply NoDup_app; [exact Hu | repeat constructor; simpl; tauto |].
    intros k' Hk' [<-|[]]. contradiction.
  - now apply (forallb_dict_set wf_value).
Qed.

(** X19: merging well-formed objects, deeply or not, returns a well-formed
    object: its keys are unique at every level. *)
Theorem merge_json_well_formed (docs : list dict) (deep_merge : bool)
    (merged : dict) :
  forallb (fun d => wf_value (VDict d)) docs = true ->
  merge_json (loaded_dicts docs) deep_merge = Ok merged ->
  wf_value (VDict merged) = true.
Proof.
  intros Hdocs.
  assert (Hfold : forall acc,
            wf_value (VDict acc) = true ->
            wf_value
              (VDict (fold_left
                        (fun result obj =>
                           if deep_merge then _deep_merge result obj
                           else dict_update result obj) docs acc)) = true).
  { induction docs as [|d docs IH]; intros acc Hacc; [exact Hacc|].
    simpl in Hdocs. apply andb_true_iff in Hdocs.
    destruct Hdocs as [Hd Hrest]. cbn [fold_left]. apply IH; [exact Hrest|].
    destruct deep_merge.
    - exact (deep_merge_wf_value (VDict d) acc Hacc Hd).
    - apply dict_update_wf; [exact Hacc|].
      simpl in Hd. apply andb_true_iff in Hd. now destruct Hd. }
  destruct deep_merge.
  - rewrite merge_json_dicts. intros [= <-]. now apply Hfold.
  - rewrite merge_json_dicts_shallow. intros [= <-]. now apply (Hfold []).
Qed.

Lemma merge_json_well_formed_witness :
  let docs := [[("a", VDict [("x", VInt 1)])];
               [("b", VInt 2); ("a", VDict [("y", VInt 3)])]] in
  forallb (fun d => wf_value (VDict d)) docs = true /\
  merge_json (loaded_dicts docs) true
  = Ok [("a", VDict [("x", VInt 1); ("y", VInt 3)]); ("b", VInt 2)] /\
  wf_value (VDict [("a", VDict [("x", VInt 1); ("y", VInt 3)]);
                   ("b", VInt 2)]) = true.
Proof.
  intros docs. split; [reflexivity|]. split; [reflexivity|].
  apply (merge_json_well_formed docs true); reflexivity.
Defined.
